(** * Coffee-shop sales analysis: aggregation and weather correlation

    A shallow embedding of [coffee_analysis.py].  The script is a linear
    pandas pipeline: load, filter to one store, derive [date], [hour] and
    [revenue], left-join the daily weather on [date], aggregate, print,
    save.

    Modelling conventions.
    - A data frame is the list of its rows, in row order; a series is the
      list of its (label, value) entries.
    - A float64 cell is a rational [Q]: arithmetic is exact, rounding is
      not part of the model, results are compared with [==], and the
      thresholds 0.7, 0.3 and 0.2 are the fractions they are written as.
      A null or NaN cell is [None].
    - The Pearson coefficient needs a square root and is a real number.
      It is the exact coefficient; what float64 computes agrees with it
      up to rounding, except where the exact variance is zero: there
      rounding decides between NaN and a number, and statements about
      NaN are made only for series on which float64 is exact.
    - [groupby] returns its groups in ascending key order, each group
      holding its rows in row order, as pandas does with [sort=True].
    - An integer slice [s[a:b]] of a series is taken by position, also
      when the index of the series holds integers.
    - [sort_values] is known by its contract only: the same entries,
      ordered by value.  Its default algorithm is not stable, so nothing
      is assumed about entries of equal value.
    - The date, time, quantity, price and id columns of the transaction
      file are populated.  A category or product cell that [read_csv]
      reads as missing makes the row part of no group of that column;
      the weather columns can be null. *)

From Stdlib Require Import String Ascii Bool.
From Stdlib Require Import ZArith QArith Qabs Qreals Reals Lra Lia Psatz.
From Stdlib Require Import List Permutation Sorted.
Import ListNotations.

Set Implicit Arguments.

(** ** Keys of a [groupby] *)

(** pandas sorts group keys; the keys used here are integers (dates and
    hours) and strings (categories and products). *)
Class KeyOrder (K : Type) := {
  kcmp : K -> K -> comparison;
  kcmp_eq : forall a b, kcmp a b = Eq <-> a = b;
  kcmp_antisym : forall a b, kcmp b a = CompOpp (kcmp a b);
  kcmp_trans : forall a b c, kcmp a b = Lt -> kcmp b c = Lt -> kcmp a c = Lt
}.

Definition klt {K} `{KeyOrder K} (a b : K) : Prop := kcmp a b = Lt.

Definition keqb {K} `{KeyOrder K} (a b : K) : bool :=
  match kcmp a b with Eq => true | _ => false end.

Lemma Z_compare_trans (a b c : Z) :
  (a ?= b)%Z = Lt -> (b ?= c)%Z = Lt -> (a ?= c)%Z = Lt.
Proof. rewrite !Z.compare_lt_iff. lia. Qed.

#[export] Instance Z_KeyOrder : KeyOrder Z := {
  kcmp := Z.compare;
  kcmp_eq := Z.compare_eq_iff;
  kcmp_antisym := fun a b => Z.compare_antisym a b;
  kcmp_trans := Z_compare_trans
}.

Lemma ascii_compare_refl (a : ascii) : Ascii.compare a a = Eq.
Proof. unfold Ascii.compare. apply N.compare_refl. Qed.

Lemma ascii_compare_trans (a b c : ascii) :
  Ascii.compare a b = Lt -> Ascii.compare b c = Lt -> Ascii.compare a c = Lt.
Proof. unfold Ascii.compare. rewrite !N.compare_lt_iff. lia. Qed.

Lemma string_compare_trans (a b c : string) :
  String.compare a b = Lt -> String.compare b c = Lt -> String.compare a c = Lt.
Proof.
  revert b c. induction a as [|x a IH]; intros [|y b] [|z c]; simpl;
    try discriminate; auto.
  destruct (Ascii.compare x y) eqn:Exy; try discriminate; intros Hab.
  - apply Ascii.compare_eq_iff in Exy. subst y.
    destruct (Ascii.compare x z) eqn:Exz; try discriminate; auto.
    intros Hbc. eapply IH; eauto.
  - destruct (Ascii.compare y z) eqn:Eyz; try discriminate; intros _.
    + apply Ascii.compare_eq_iff in Eyz. subst z. now rewrite Exy.
    + now rewrite (ascii_compare_trans _ _ _ Exy Eyz).
Qed.

Lemma string_compare_eq (a b : string) : String.compare a b = Eq <-> a = b.
Proof.
  split; [apply String.compare_eq_iff|intros <-].
  induction a as [|x a IH]; simpl; [reflexivity|].
  now rewrite ascii_compare_refl.
Qed.

#[export] Instance string_KeyOrder : KeyOrder string := {
  kcmp := String.compare;
  kcmp_eq := string_compare_eq;
  kcmp_antisym := fun a b => String.compare_antisym b a;
  kcmp_trans := string_compare_trans
}.

Section KeyFacts.
Context {K : Type} `{KeyOrder K}.

Lemma kcmp_refl (a : K) : kcmp a a = Eq.
Proof. now apply kcmp_eq. Qed.

Lemma keqb_eq (a b : K) : keqb a b = true <-> a = b.
Proof.
  unfold keqb. rewrite <- kcmp_eq. destruct (kcmp a b); intuition congruence.
Qed.

Lemma keqb_refl (a : K) : keqb a a = true.
Proof. now apply keqb_eq. Qed.

Lemma keqb_neq (a b : K) : keqb a b = false <-> a <> b.
Proof.
  rewrite <- keqb_eq. destruct (keqb a b); intuition congruence.
Qed.

Lemma keqb_sym (a b : K) : keqb a b = keqb b a.
Proof.
  destruct (keqb b a) eqn:E.
  - apply keqb_eq in E. subst. apply keqb_refl.
  - apply keqb_neq in E. apply keqb_neq. congruence.
Qed.

Lemma kcmp_gt_lt (a b : K) : kcmp a b = Gt -> klt b a.
Proof. unfold klt. intros E. now rewrite kcmp_antisym, E. Qed.

Lemma klt_irrefl (a : K) : ~ klt a a.
Proof. unfold klt. now rewrite kcmp_refl. Qed.

Lemma klt_neq (a b : K) : klt a b -> a <> b.
Proof. intros L ->. exact (klt_irrefl L). Qed.

Lemma klt_trans (a b c : K) : klt a b -> klt b c -> klt a c.
Proof. exact (kcmp_trans a b c). Qed.
End KeyFacts.

(** ** [groupby] *)

Section Upsert.
Context {K A : Type} `{KeyOrder K}.

(** One row enters the table of groups: appended to its group, or a
    new group is opened at the key's place in ascending order. *)
Fixpoint upsert (k : K) (a : A) (gs : list (K * list A)) : list (K * list A) :=
  match gs with
  | [] => [(k, [a])]
  | (k', g) :: rest =>
      match kcmp k k' with
      | Lt => (k, [a]) :: gs
      | Eq => (k', g ++ [a]) :: rest
      | Gt => (k', g) :: upsert k a rest
      end
  end.

Fixpoint get_group (k : K) (gs : list (K * list A)) : list A :=
  match gs with
  | [] => []
  | (k', g) :: rest => if keqb k k' then g else get_group k rest
  end.

Definition keys_sorted (gs : list (K * list A)) : Prop :=
  StronglySorted klt (map fst gs).

Lemma upsert_keys k a gs x :
  In x (map fst (upsert k a gs)) <-> x = k \/ In x (map fst gs).
Proof.
  induction gs as [|[k' g] rest IH]; simpl.
  - intuition.
  - destruct (kcmp k k') eqn:E; simpl.
    + apply kcmp_eq in E. subst k'. intuition.
    + intuition.
    + rewrite IH. intuition.
Qed.

Lemma upsert_sorted k a gs : keys_sorted gs -> keys_sorted (upsert k a gs).
Proof.
  unfold keys_sorted. induction gs as [|[k' g] rest IH]; simpl; intros S.
  - repeat constructor.
  - inversion S as [|? ? S' F]; subst.
    destruct (kcmp k k') eqn:E; simpl.
    + now constructor.
    + constructor; [exact S|]. constructor; [exact E|].
      eapply Forall_impl; [|exact F]. intros x. now apply klt_trans.
    + constructor; [now apply IH|]. apply Forall_forall. intros x Hx.
      apply upsert_keys in Hx. destruct Hx as [->|Hx].
      * now apply kcmp_gt_lt.
      * rewrite Forall_forall in F. now apply F.
Qed.

Lemma get_group_absent k gs : ~ In k (map fst gs) -> get_group k gs = [].
Proof.
  induction gs as [|[k' g] rest IH]; simpl; intros N; [reflexivity|].
  destruct (keqb k k') eqn:E.
  - apply keqb_eq in E. subst. tauto.
  - apply IH. tauto.
Qed.

Lemma sorted_head_absent k (gs : list (K * list A)) :
  Forall (klt k) (map fst gs) -> ~ In k (map fst gs).
Proof.
  rewrite Forall_forall. intros F I. exact (klt_irrefl (F _ I)).
Qed.

Lemma upsert_get_group k a gs k0 :
  keys_sorted gs ->
  get_group k0 (upsert k a gs) =
  if keqb k0 k then get_group k0 gs ++ [a] else get_group k0 gs.
Proof.
  unfold keys_sorted. induction gs as [|[k' g] rest IH]; simpl; intros S.
  - now destruct (keqb k0 k).
  - inversion S as [|? ? S' F]; subst.
    destruct (kcmp k k') eqn:E; simpl.
    + apply kcmp_eq in E. subst k'. now destruct (keqb k0 k).
    + destruct (keqb k0 k) eqn:E0; [|reflexivity].
      apply keqb_eq in E0. subst k0.
      assert (N : keqb k k' = false) by (apply keqb_neq; now apply klt_neq).
      rewrite N. rewrite get_group_absent; [reflexivity|].
      apply sorted_head_absent. eapply Forall_impl; [|exact F].
      intros x. now apply klt_trans.
    + destruct (keqb k0 k') eqn:E1.
      * apply keqb_eq in E1. subst k0.
        assert (N : keqb k' k = false).
        { apply keqb_neq. apply klt_neq. now apply kcmp_gt_lt. }
        now rewrite N.
      * now apply IH.
Qed.

End Upsert.

Section GroupBy.
Context {K A : Type} `{KeyOrder K}.
Variable key : A -> K.

(** [df.groupby(key)]: the rows enter the table of groups in row order. *)
Definition groupby (rows : list A) : list (K * list A) :=
  fold_left (fun gs r => upsert (key r) r gs) rows [].

Definition rows_of (k : K) (rows : list A) : list A :=
  filter (fun r => keqb (key r) k) rows.

Lemma groupby_snoc rows r :
  groupby (rows ++ [r]) = upsert (key r) r (groupby rows).
Proof. unfold groupby. now rewrite fold_left_app. Qed.

Lemma groupby_sorted rows : keys_sorted (groupby rows).
Proof.
  induction rows as [|r rows IH] using rev_ind.
  - constructor.
  - rewrite groupby_snoc. now apply upsert_sorted.
Qed.

(** The group of a key holds the rows with that key, in row order. *)
Lemma groupby_get_group rows k : get_group k (groupby rows) = rows_of k rows.
Proof.
  unfold rows_of. induction rows as [|r rows IH] using rev_ind.
  - reflexivity.
  - rewrite groupby_snoc, upsert_get_group by apply groupby_sorted.
    rewrite filter_app, IH. simpl. rewrite (keqb_sym k (key r)).
    destruct (keqb (key r) k); [reflexivity|now rewrite app_nil_r].
Qed.
End GroupBy.

Section GroupByFacts.
Context {K A : Type} `{KeyOrder K}.
Variable key : A -> K.

Lemma groupby_keys rows x :
  In x (map fst (groupby key rows)) <-> In x (map key rows).
Proof.
  induction rows as [|r rows IH] using rev_ind.
  - reflexivity.
  - rewrite groupby_snoc, upsert_keys, IH, map_app, in_app_iff. simpl.
    split; [intros [->|I]|intros [I|[E|[]]]]; auto.
Qed.

Lemma sorted_keys_NoDup (ks : list K) : StronglySorted klt ks -> NoDup ks.
Proof.
  induction 1 as [|k ks S IH F]; constructor; auto.
  rewrite Forall_forall in F. intros I. exact (klt_irrefl (F _ I)).
Qed.

Lemma groupby_keys_NoDup rows : NoDup (map fst (groupby key rows)).
Proof. apply sorted_keys_NoDup. apply (groupby_sorted key). Qed.

Lemma get_group_In k (g : list A) gs :
  NoDup (map fst gs) -> In (k, g) gs -> get_group k gs = g.
Proof.
  induction gs as [|[k' g'] rest IH]; simpl; intros N I; [tauto|].
  inversion N as [|? ? N1 N2]; subst. destruct I as [E|I].
  - inversion E; subst. now rewrite keqb_refl.
  - destruct (keqb k k') eqn:E; [|now apply IH].
    apply keqb_eq in E. subst k'. exfalso. apply N1.
    change k with (fst (k, g)). now apply in_map.
Qed.

(** Each group is the sub-list of the rows with its key. *)
Lemma groupby_In rows k g :
  In (k, g) (groupby key rows) -> g = rows_of key k rows.
Proof.
  intros I. rewrite <- groupby_get_group. symmetry.
  apply get_group_In; [apply groupby_keys_NoDup|exact I].
Qed.

Lemma get_group_present k (gs : list (K * list A)) :
  In k (map fst gs) -> In (k, get_group k gs) gs.
Proof.
  induction gs as [|[k' g'] rest IH]; simpl; [tauto|].
  intros [E|I].
  - subst k'. rewrite keqb_refl. now left.
  - destruct (keqb k k') eqn:E.
    + apply keqb_eq in E. subst k'. now left.
    + right. now apply IH.
Qed.

(** Every key of the table has its group in the result. *)
Lemma groupby_present rows r :
  In r rows -> In (key r, rows_of key (key r) rows) (groupby key rows).
Proof.
  intros I. rewrite <- groupby_get_group. apply get_group_present.
  apply groupby_keys. now apply in_map.
Qed.

(** The number of groups is the number of distinct keys. *)
Lemma groupby_length (dec : forall a b : K, {a = b} + {a <> b}) rows :
  length (groupby key rows) = length (nodup dec (map key rows)).
Proof.
  rewrite <- (length_map fst). apply Permutation_length.
  apply NoDup_Permutation.
  - apply groupby_keys_NoDup.
  - apply NoDup_nodup.
  - intros x. rewrite groupby_keys, nodup_In. reflexivity.
Qed.
End GroupByFacts.

(** ** Sums of a column *)

(** [Series.sum()]: the sum of the cells, 0 for an empty column. *)
Definition Qsum (xs : list Q) : Q := fold_right Qplus 0 xs.

(** [Series.mean()]: NaN for an empty column. *)
Definition Qmean (xs : list Q) : option Q :=
  match xs with
  | [] => None
  | _ => Some (Qsum xs / inject_Z (Z.of_nat (length xs)))
  end.

Lemma Qsum_app xs ys : Qsum (xs ++ ys) == Qsum xs + Qsum ys.
Proof.
  induction xs as [|x xs IH]; simpl; [ring|]. rewrite IH. ring.
Qed.

Lemma Qsum_perm xs ys : Permutation xs ys -> Qsum xs == Qsum ys.
Proof.
  induction 1; simpl; try ring.
  - now rewrite IHPermutation.
  - now rewrite IHPermutation1.
Qed.

Section GroupSums.
Context {K A : Type} `{KeyOrder K}.
Variable key : A -> K.
Variable val : A -> Q.

(** [df.groupby(key)[val].sum()]: a series indexed by the sorted keys. *)
Definition agg_sum (gs : list (K * list A)) : list (K * Q) :=
  map (fun kg => (fst kg, Qsum (map val (snd kg)))) gs.

Definition groupby_sum (rows : list A) : list (K * Q) :=
  agg_sum (groupby key rows).

(** The part of a series whose labels satisfy [P], summed. *)
Definition sum_where (P : K -> bool) (s : list (K * Q)) : Q :=
  Qsum (map snd (filter (fun e => P (fst e)) s)).

Lemma upsert_sum_where P k a gs :
  sum_where P (agg_sum (upsert k a gs)) ==
  (if P k then val a else 0) + sum_where P (agg_sum gs).
Proof.
  unfold sum_where. induction gs as [|[k' g] rest IH]; simpl.
  - destruct (P k); simpl; ring.
  - destruct (kcmp k k') eqn:E; simpl.
    + apply kcmp_eq in E. subst k'. destruct (P k); simpl; [|ring].
      rewrite map_app, Qsum_app. simpl. ring.
    + destruct (P k), (P k'); simpl; ring.
    + destruct (P k'); simpl; rewrite IH; ring.
Qed.

(** Summing the per-key totals of the keys in [P] is summing the rows
    whose key is in [P]. *)
Lemma groupby_sum_where P rows :
  sum_where P (groupby_sum rows) ==
  Qsum (map val (filter (fun r => P (key r)) rows)).
Proof.
  unfold groupby_sum. induction rows as [|r rows IH] using rev_ind.
  - reflexivity.
  - rewrite groupby_snoc, upsert_sum_where, IH, filter_app, map_app, Qsum_app.
    simpl. destruct (P (key r)); simpl; ring.
Qed.

Lemma sum_where_all (s : list (K * Q)) :
  sum_where (fun _ => true) s = Qsum (map snd s).
Proof.
  unfold sum_where. f_equal. f_equal.
  induction s as [|e s IH]; simpl; congruence.
Qed.

Lemma groupby_sum_total rows :
  Qsum (map snd (groupby_sum rows)) == Qsum (map val rows).
Proof.
  rewrite <- sum_where_all, groupby_sum_where.
  assert (E : filter (fun r => (fun _ : K => true) (key r)) rows = rows).
  { induction rows as [|r l IH]; simpl; congruence. }
  now rewrite E.
Qed.

Lemma groupby_sum_keys rows : map fst (groupby_sum rows) = map fst (groupby key rows).
Proof. unfold groupby_sum, agg_sum. now rewrite map_map. Qed.
End GroupSums.

(** ** [sort_values] *)

Definition descending {K} (a b : K * Q) : Prop := snd b <= snd a.

Definition ascending {K} (a b : K * Q) : Prop := snd a <= snd b.

(** What pandas promises of [sort_values] with its default kind of sort:
    the entries of the series, by value, largest first
    ([ascending=False]) or smallest first.  No order is promised among
    entries of equal value. *)
Class SortValues := {
  sort_values_desc : forall {K : Type}, list (K * Q) -> list (K * Q);
  sort_values_asc : forall {K : Type}, list (K * Q) -> list (K * Q);
  sort_values_desc_perm : forall K (s : list (K * Q)),
    Permutation s (sort_values_desc s);
  sort_values_desc_sorted : forall K (s : list (K * Q)),
    StronglySorted descending (sort_values_desc s);
  sort_values_asc_perm : forall K (s : list (K * Q)),
    Permutation s (sort_values_asc s);
  sort_values_asc_sorted : forall K (s : list (K * Q)),
    StronglySorted ascending (sort_values_asc s)
}.

Lemma sort_values_desc_length `{SortValues} {K} (s : list (K * Q)) :
  length (sort_values_desc s) = length s.
Proof. symmetry. apply Permutation_length, sort_values_desc_perm. Qed.

Lemma sort_values_desc_sum `{SortValues} {K} (s : list (K * Q)) :
  Qsum (map snd (sort_values_desc s)) == Qsum (map snd s).
Proof.
  symmetry. apply Qsum_perm, Permutation_map, sort_values_desc_perm.
Qed.

(** The sort that the examples run: by insertion, so that entries of
    equal value stay in the order of the series, which is what numpy's
    default sort does on the short arrays of the examples. *)
Section Insertion.
Context {K : Type}.

Fixpoint insert_desc (x : K * Q) (s : list (K * Q)) : list (K * Q) :=
  match s with
  | [] => [x]
  | y :: s' =>
      if Qle_bool (snd y) (snd x) then x :: s else y :: insert_desc x s'
  end.

Fixpoint insert_asc (x : K * Q) (s : list (K * Q)) : list (K * Q) :=
  match s with
  | [] => [x]
  | y :: s' =>
      if Qle_bool (snd x) (snd y) then x :: s else y :: insert_asc x s'
  end.

Lemma insert_desc_perm x s : Permutation (x :: s) (insert_desc x s).
Proof.
  induction s as [|y s IH]; simpl; [reflexivity|].
  destruct (Qle_bool (snd y) (snd x)); [reflexivity|].
  rewrite perm_swap. now constructor.
Qed.

Lemma insert_asc_perm x s : Permutation (x :: s) (insert_asc x s).
Proof.
  induction s as [|y s IH]; simpl; [reflexivity|].
  destruct (Qle_bool (snd x) (snd y)); [reflexivity|].
  rewrite perm_swap. now constructor.
Qed.

Lemma insert_desc_sorted x s :
  StronglySorted descending s -> StronglySorted descending (insert_desc x s).
Proof.
  induction 1 as [|y s S IH F]; simpl; [repeat constructor|].
  destruct (Qle_bool (snd y) (snd x)) eqn:E.
  - apply Qle_bool_iff in E. constructor; [now constructor|].
    constructor; [exact E|]. eapply Forall_impl; [|exact F].
    unfold descending. intros z Hz. now apply Qle_trans with (snd y).
  - constructor; [exact IH|].
    apply (Permutation_Forall (insert_desc_perm x s)). constructor; [|exact F].
    unfold descending. apply Qlt_le_weak, Qnot_le_lt. intros L.
    apply Qle_bool_iff in L. congruence.
Qed.

Lemma insert_asc_sorted x s :
  StronglySorted ascending s -> StronglySorted ascending (insert_asc x s).
Proof.
  induction 1 as [|y s S IH F]; simpl; [repeat constructor|].
  destruct (Qle_bool (snd x) (snd y)) eqn:E.
  - apply Qle_bool_iff in E. constructor; [now constructor|].
    constructor; [exact E|]. eapply Forall_impl; [|exact F].
    unfold ascending. intros z Hz. now apply Qle_trans with (snd y).
  - constructor; [exact IH|].
    apply (Permutation_Forall (insert_asc_perm x s)). constructor; [|exact F].
    unfold ascending. apply Qlt_le_weak, Qnot_le_lt. intros L.
    apply Qle_bool_iff in L. congruence.
Qed.

Lemma insertion_desc_perm s : Permutation s (fold_right insert_desc [] s).
Proof.
  induction s as [|x s IH]; simpl; [constructor|].
  rewrite <- insert_desc_perm. now constructor.
Qed.

Lemma insertion_asc_perm s : Permutation s (fold_right insert_asc [] s).
Proof.
  induction s as [|x s IH]; simpl; [constructor|].
  rewrite <- insert_asc_perm. now constructor.
Qed.

Lemma insertion_desc_sorted s :
  StronglySorted descending (fold_right insert_desc [] s).
Proof.
  induction s as [|x s IH]; simpl; [constructor|]. now apply insert_desc_sorted.
Qed.

Lemma insertion_asc_sorted s :
  StronglySorted ascending (fold_right insert_asc [] s).
Proof.
  induction s as [|x s IH]; simpl; [constructor|]. now apply insert_asc_sorted.
Qed.
End Insertion.

#[export] Instance insertion_sort : SortValues := {
  sort_values_desc := fun K => fold_right (@insert_desc K) [];
  sort_values_asc := fun K => fold_right (@insert_asc K) [];
  sort_values_desc_perm := @insertion_desc_perm;
  sort_values_desc_sorted := @insertion_desc_sorted;
  sort_values_asc_perm := @insertion_asc_perm;
  sort_values_asc_sorted := @insertion_asc_sorted
}.

(** ** Data model *)

Record Time := { hh : Z; mm : Z; ss : Z }.

(** A row of the transaction file.  [transaction_date] is a calendar day,
    numbered; parsing it from text is the loader's work. *)
Record Transaction := {
  transaction_id : Z;
  store_location : string;
  transaction_date : Z;
  transaction_time : Time;
  transaction_qty : Z;
  unit_price : Q;
  product_category : string;
  product_detail : string
}.

(** A row after lines 6-9: the derived columns [date], [hour], [revenue]. *)
Record SalesRow := {
  txn : Transaction;
  date : Z;
  hour : Z;
  revenue : Q
}.

(** A row of [weather_df]. *)
Record DailyWeather := {
  wdate : Z;
  wtemperature : option Q;
  wrain : option Q
}.

(** A row after the merge of line 31. *)
Record EnrichedTransaction := {
  sale : SalesRow;
  temperature : option Q;
  rain : option Q
}.

(** A row of [daily]. *)
Record DailySummary := {
  ds_date : Z;
  ds_revenue : Q;
  ds_temperature : option Q;
  ds_rain : option Q;
  ds_transactions : nat
}.

Definition e_date (e : EnrichedTransaction) : Z := date (sale e).
Definition e_hour (e : EnrichedTransaction) : Z := hour (sale e).
Definition e_revenue (e : EnrichedTransaction) : Q := revenue (sale e).
Definition e_category (e : EnrichedTransaction) : string :=
  product_category (txn (sale e)).
Definition e_product (e : EnrichedTransaction) : string :=
  product_detail (txn (sale e)).

(** ** Data preparation (lines 5-31) *)

Definition store : string := "Lower Manhattan".

Definition derive (t : Transaction) : SalesRow :=
  {| txn := t;
     date := transaction_date t;
     hour := hh (transaction_time t);
     revenue := inject_Z (transaction_qty t) * unit_price t |}.

Definition prepare (csv : list Transaction) : list SalesRow :=
  map derive (filter (fun t => String.eqb (store_location t) store) csv).

Definition weather_on (d : Z) (weather : list DailyWeather) : list DailyWeather :=
  filter (fun w => Z.eqb (wdate w) d) weather.

Definition with_weather (r : SalesRow) (w : DailyWeather) : EnrichedTransaction :=
  {| sale := r; temperature := wtemperature w; rain := wrain w |}.

Definition without_weather (r : SalesRow) : EnrichedTransaction :=
  {| sale := r; temperature := None; rain := None |}.

(** [df.merge(weather_df, on='date', how='left')]: every left row, in
    order, once per weather row of its date, or once with nulls. *)
Definition merge_row (weather : list DailyWeather) (r : SalesRow)
  : list EnrichedTransaction :=
  match weather_on (date r) weather with
  | [] => [without_weather r]
  | ws => map (with_weather r) ws
  end.

Definition merge_left (rows : list SalesRow) (weather : list DailyWeather)
  : list EnrichedTransaction :=
  flat_map (merge_row weather) rows.

(** ** Aggregation (lines 38-82) *)

Definition total_revenue (df : list EnrichedTransaction) : Q :=
  Qsum (map e_revenue df).

(** The cells that [read_csv] reads as missing in a column of text. *)
Definition na_values : list string :=
  [ EmptyString; "#N/A"; "#N/A N/A"; "#NA"; "-1.#IND"; "-1.#QNAN"; "-NaN";
    "-nan"; "1.#IND"; "1.#QNAN"; "<NA>"; "N/A"; "NA"; "NULL"; "NaN"; "None";
    "n/a"; "nan"; "null" ]%string.

Definition is_missing (cell : string) : bool :=
  existsb (String.eqb cell) na_values.

(** The rows that [groupby('product_category')] groups: a row whose
    category is missing is in no group. *)
Definition with_category (df : list EnrichedTransaction)
  : list EnrichedTransaction :=
  filter (fun e => negb (is_missing (e_category e))) df.

Definition by_category `{SortValues} (df : list EnrichedTransaction)
  : list (string * Q) :=
  sort_values_desc (groupby_sum e_category e_revenue (with_category df)).

Definition total_rev `{SortValues} (df : list EnrichedTransaction) : Q :=
  Qsum (map snd (by_category df)).

(** The rows that [groupby('product_detail')] groups. *)
Definition with_product (df : list EnrichedTransaction)
  : list EnrichedTransaction :=
  filter (fun e => negb (is_missing (e_product e))) df.

Definition top_products `{SortValues} (df : list EnrichedTransaction)
  : list (string * Q) :=
  firstn 5 (sort_values_desc
              (groupby_sum e_product e_revenue (with_product df))).

Definition by_hour (df : list EnrichedTransaction) : list (Z * Q) :=
  groupby_sum e_hour e_revenue df.

(** [s[a:b]] and [s[a:]] on a series with an integer index: pandas takes
    an integer slice by position, not by label. *)
Definition islice {A} (a b : nat) (s : list A) : list A :=
  firstn (b - a) (skipn a s).

Definition islice_from {A} (a : nat) (s : list A) : list A := skipn a s.

Definition morning (df : list EnrichedTransaction) : Q :=
  Qsum (map snd (islice 7 12 (by_hour df))).

Definition afternoon (df : list EnrichedTransaction) : Q :=
  Qsum (map snd (islice 12 18 (by_hour df))).

Definition evening (df : list EnrichedTransaction) : Q :=
  Qsum (map snd (islice_from 18 (by_hour df))).

(** [GroupBy.first]: the first cell of the group that is not null. *)
Fixpoint first_valid (xs : list (option Q)) : option Q :=
  match xs with
  | [] => None
  | Some x :: _ => Some x
  | None :: xs' => first_valid xs'
  end.

Definition summarise (g : Z * list EnrichedTransaction) : DailySummary :=
  {| ds_date := fst g;
     ds_revenue := Qsum (map e_revenue (snd g));
     ds_temperature := first_valid (map temperature (snd g));
     ds_rain := first_valid (map rain (snd g));
     ds_transactions := length (snd g) |}.

Definition daily (df : list EnrichedTransaction) : list DailySummary :=
  map summarise (groupby e_date df).

(** ** Correlation (lines 84-85) *)

(** The days on which the column [col] has a value, paired with the
    day's revenue: [Series.corr] drops the pairs with a null. *)
Definition paired (col : DailySummary -> option Q) (days : list DailySummary)
  : list (Q * Q) :=
  flat_map (fun d => match col d with
                     | Some v => [(ds_revenue d, v)]
                     | None => []
                     end) days.

Definition count_of {A} (xs : list A) : Q := inject_Z (Z.of_nat (length xs)).

Definition centre (xs : list Q) : Q := Qsum xs / count_of xs.

(** Sum of the products of the deviations from the two means. *)
Definition co_dev (ps : list (Q * Q)) : Q :=
  let mx := centre (map fst ps) in
  let my := centre (map snd ps) in
  Qsum (map (fun p => (fst p - mx) * (snd p - my)) ps).

Definition sq_dev (xs : list Q) : Q :=
  let m := centre xs in
  Qsum (map (fun x => (x - m) * (x - m)) xs).

(** Pearson's coefficient, computed exactly.  The covariance matrix is
    normalised by the square roots of its diagonal; a zero on the
    diagonal (a constant series, a single pair, no pair) gives NaN.
    In float64 the diagonal of a constant series is zero when its mean
    is computed without rounding, see [whole_constant]; otherwise it
    can be a small positive number and the coefficient a number. *)
Definition pearson (ps : list (Q * Q)) : option R :=
  let sxx := sq_dev (map fst ps) in
  let syy := sq_dev (map snd ps) in
  if Qeq_bool sxx 0 || Qeq_bool syy 0 then None
  else Some (Q2R (co_dev ps) / (sqrt (Q2R sxx) * sqrt (Q2R syy)))%R.

Definition correlation_temp (days : list DailySummary) : option R :=
  pearson (paired ds_temperature days).

Definition correlation_rain (days : list DailySummary) : option R :=
  pearson (paired ds_rain days).

(** ** Floating-point comparisons and arithmetic with NaN *)

(** A comparison with NaN is false. *)
Definition fgt (x : option R) (t : R) : bool :=
  match x with
  | Some v => if Rlt_dec t v then true else false
  | None => false
  end.

Definition flt (x : option R) (t : R) : bool :=
  match x with
  | Some v => if Rlt_dec v t then true else false
  | None => false
  end.

Definition fabs (x : option R) : option R := option_map Rabs x.

Definition Qlt_bool (a b : Q) : bool := negb (Qle_bool b a).

Definition cell_lt (x : option Q) (t : Q) : bool :=
  match x with Some v => Qlt_bool v t | None => false end.

Definition cell_gt (x : option Q) (t : Q) : bool :=
  match x with Some v => Qlt_bool t v | None => false end.

Definition cell_eq (x : option Q) (t : Q) : bool :=
  match x with Some v => Qeq_bool v t | None => false end.

(** Arithmetic on cells: [None] is a result that is not a finite number
    (NaN, or an infinity from a division by zero). *)
Definition cell_sub (a b : option Q) : option Q :=
  match a, b with Some x, Some y => Some (x - y) | _, _ => None end.

Definition cell_mul (a b : option Q) : option Q :=
  match a, b with Some x, Some y => Some (x * y) | _, _ => None end.

Definition cell_div (a b : option Q) : option Q :=
  match a, b with
  | Some x, Some y => if Qeq_bool y 0 then None else Some (x / y)
  | _, _ => None
  end.

Definition cell_abs (a : option Q) : option Q := option_map Qabs a.

(** [daily[mask]['revenue'].mean()] *)
Definition mean_revenue_where (mask : DailySummary -> bool)
  (days : list DailySummary) : option Q :=
  Qmean (map ds_revenue (filter mask days)).

(** ** Correlation report (lines 87-116) *)

(** What an f-string prints for a float: the digits, or [nan]. *)
Inductive printed :=
| Fixed (places : nat) (x : R)
| Word (w : string).

Definition format_fixed (places : nat) (x : option R) : printed :=
  match x with
  | Some v => Fixed places v
  | None => Word "nan"
  end.

Inductive temperature_finding :=
| StrongPositive (temp_cold temp_warm difference uplift : option Q)
| ModeratePositive
| WeakTemperature.

Definition temp_cold (days : list DailySummary) : option Q :=
  mean_revenue_where (fun d => cell_lt (ds_temperature d) 40) days.

Definition temp_warm (days : list DailySummary) : option Q :=
  mean_revenue_where (fun d => cell_gt (ds_temperature d) 70) days.

Definition temperature_report (days : list DailySummary) : temperature_finding :=
  if fgt (correlation_temp days) (7 / 10) then
    let cold := temp_cold days in
    let warm := temp_warm days in
    StrongPositive cold warm
      (cell_sub warm cold)
      (cell_mul (cell_sub (cell_div warm cold) (Some 1)) (Some 100))
  else if fgt (correlation_temp days) (3 / 10) then ModeratePositive
  else WeakTemperature.

Inductive rain_finding :=
| WeakRain (rainy no_rain difference : option Q)
| NegativeRain
| PositiveRain.

Definition rainy (days : list DailySummary) : option Q :=
  mean_revenue_where (fun d => cell_gt (ds_rain d) 0) days.

Definition no_rain (days : list DailySummary) : option Q :=
  mean_revenue_where (fun d => cell_eq (ds_rain d) 0) days.

Definition rain_report (days : list DailySummary) : rain_finding :=
  if flt (fabs (correlation_rain days)) (2 / 10) then
    WeakRain (rainy days) (no_rain days)
      (cell_abs (cell_sub (no_rain days) (rainy days)))
  else if flt (correlation_rain days) 0 then NegativeRain
  else PositiveRain.

(** [Series.max()] skips the nulls and is NaN when nothing is left. *)
Fixpoint Qmax_list (xs : list Q) : option Q :=
  match xs with
  | [] => None
  | x :: xs' =>
      match Qmax_list xs' with
      | None => Some x
      | Some m => Some (if Qle_bool m x then x else m)
      end
  end.

Definition present (col : DailySummary -> option Q) (days : list DailySummary)
  : list Q :=
  flat_map (fun d => match col d with Some v => [v] | None => [] end) days.

Definition rainiest_day (days : list DailySummary) : option Q :=
  Qmax_list (present ds_rain days).

Definition days_with_rain (days : list DailySummary) : nat :=
  length (filter (fun d => cell_gt (ds_rain d) 0) days).

(** ** Sample rows *)

Definition sample_txn (id day h : Z) (category product : string)
  (qty : Z) (price : Q) : Transaction :=
  {| transaction_id := id;
     store_location := store;
     transaction_date := day;
     transaction_time := {| hh := h; mm := 0; ss := 0 |};
     transaction_qty := qty;
     unit_price := price;
     product_category := category;
     product_detail := product |}.

Definition sample_row (id day h : Z) (category product : string)
  (qty : Z) (price : Q) (temp wet : option Q) : EnrichedTransaction :=
  {| sale := derive (sample_txn id day h category product qty price);
     temperature := temp;
     rain := wet |}.

Lemma filter_none {A} (p : A -> bool) (s : list A) :
  (forall x, In x s -> p x = false) -> filter p s = [].
Proof.
  induction s as [|x s IH]; simpl; intros F; [reflexivity|].
  rewrite (F x) by now left. apply IH. intros y I. apply F. now right.
Qed.

(** ** Facts about positional slices *)

Section Slices.
Context {V : Type}.

Definition label_from (a : nat) (e : Z * V) : bool := (Z.of_nat a <=? fst e)%Z.
Definition label_below (b : nat) (e : Z * V) : bool := (fst e <? Z.of_nat b)%Z.

(** A series is densely labelled when its labels are [o, o+1, ...]:
    then the entry at position [i] carries the label [o + i]. *)
Definition dense_from (o k : nat) (s : list (Z * V)) : Prop :=
  map fst s = map Z.of_nat (seq o k).

Lemma filter_every (p : Z * V -> bool) s :
  Forall (fun e => p e = true) s -> filter p s = s.
Proof.
  induction 1 as [|e s E F IH]; simpl; [reflexivity|]. now rewrite E, IH.
Qed.

Lemma filter_both (p q : Z * V -> bool) s :
  filter q (filter p s) = filter (fun e => p e && q e) s.
Proof.
  induction s as [|e s IH]; simpl; [reflexivity|].
  destruct (p e); simpl; [|exact IH]. destruct (q e); now rewrite IH.
Qed.

Lemma dense_labels o k s e :
  dense_from o k s -> In e s -> (Z.of_nat o <= fst e < Z.of_nat (o + k))%Z.
Proof.
  unfold dense_from. intros D I. apply (in_map fst) in I. rewrite D in I.
  apply in_map_iff in I. destruct I as [i [<- I]]. apply in_seq in I. lia.
Qed.

Lemma dense_tail o k e s :
  dense_from o k (e :: s) ->
  fst e = Z.of_nat o /\ exists k', k = S k' /\ dense_from (S o) k' s.
Proof.
  unfold dense_from. destruct k as [|k']; simpl; [discriminate|].
  intros D. inversion D. eauto.
Qed.

Lemma skipn_dense a : forall o k s,
  dense_from o k s -> skipn a s = filter (label_from (o + a)) s.
Proof.
  induction a as [|a IH]; intros o k s D.
  - simpl. symmetry. apply filter_every. apply Forall_forall. intros e I.
    unfold label_from. pose proof (dense_labels e D I). apply Z.leb_le. lia.
  - destruct s as [|e s]; [reflexivity|].
    destruct (dense_tail D) as (E & k' & -> & D'). simpl.
    unfold label_from at 1. rewrite E.
    replace (Z.of_nat (o + S a) <=? Z.of_nat o)%Z with false
      by (symmetry; apply Z.leb_gt; lia).
    rewrite (IH _ _ _ D'). now replace (S o + a)%nat with (o + S a)%nat by lia.
Qed.

Lemma firstn_dense n : forall o k s,
  dense_from o k s -> firstn n s = filter (label_below (o + n)) s.
Proof.
  induction n as [|n IH]; intros o k s D.
  - simpl. symmetry. apply filter_none. intros e I.
    unfold label_below. pose proof (dense_labels e D I). apply Z.ltb_ge. lia.
  - destruct s as [|e s]; [reflexivity|].
    destruct (dense_tail D) as (E & k' & -> & D'). simpl.
    unfold label_below at 1. rewrite E.
    replace (Z.of_nat o <? Z.of_nat (o + S n))%Z with true
      by (symmetry; apply Z.ltb_lt; lia).
    rewrite (IH _ _ _ D'). now replace (S o + n)%nat with (o + S n)%nat by lia.
Qed.

Lemma skipn_dense_from a : forall o k s,
  dense_from o k s -> dense_from (o + a) (k - a) (skipn a s).
Proof.
  unfold dense_from. intros o k s D.
  rewrite <- skipn_map, D, skipn_map, skipn_seq. reflexivity.
Qed.

(** On a series labelled [0, 1, ...] the positional slice [a:b] is the
    slice of the labels [a <= h < b]. *)
Lemma islice_dense a b k s :
  (a <= b)%nat -> dense_from 0 k s ->
  islice a b s = filter (fun e => label_from a e && label_below b e) s.
Proof.
  intros L D. unfold islice.
  rewrite (firstn_dense (b - a) (skipn_dense_from a D)).
  rewrite (skipn_dense a D). simpl.
  replace (a + (b - a))%nat with b by lia.
  apply filter_both.
Qed.
End Slices.

(** ** Revenue sums: categories, hours, time buckets *)

(** Revenue of the rows whose hour [h] has [a <= h < b]. *)
Definition revenue_in_hours (a b : Z) (df : list EnrichedTransaction) : Q :=
  Qsum (map e_revenue
          (filter (fun e => (a <=? e_hour e)%Z && (e_hour e <? b)%Z) df)).

(** The hours of the day that have a row are exactly [0 .. k-1]. *)
Definition hours_dense (k : nat) (df : list EnrichedTransaction) : Prop :=
  dense_from 0 k (by_hour df).

Lemma by_hour_slice a b k df :
  (a <= b)%nat -> hours_dense k df ->
  Qsum (map snd (islice a b (by_hour df))) ==
  revenue_in_hours (Z.of_nat a) (Z.of_nat b) df.
Proof.
  intros L D. rewrite (islice_dense L D).
  exact (groupby_sum_where e_hour e_revenue
           (fun h => (Z.of_nat a <=? h)%Z && (h <? Z.of_nat b)%Z) df).
Qed.

Lemma hours_dense_range k df e :
  hours_dense k df -> In e df -> (0 <= e_hour e < Z.of_nat k)%Z.
Proof.
  intros D I.
  assert (J : In (e_hour e) (map fst (by_hour df))).
  { unfold by_hour. rewrite groupby_sum_keys. apply groupby_keys.
    now apply in_map. }
  apply in_map_iff in J. destruct J as [x [E J]].
  pose proof (dense_labels x D J) as B. rewrite E in B. simpl in B. lia.
Qed.

Lemma by_hour_from a k df :
  (k <= 24)%nat -> hours_dense k df ->
  Qsum (map snd (islice_from a (by_hour df))) ==
  revenue_in_hours (Z.of_nat a) 24 df.
Proof.
  intros L D. unfold islice_from. rewrite (skipn_dense a D). simpl.
  change (Qsum (map snd (filter (label_from a) (by_hour df))))
    with (sum_where (fun h => (Z.of_nat a <=? h)%Z) (by_hour df)).
  unfold by_hour. rewrite groupby_sum_where. unfold revenue_in_hours.
  assert (E : filter (fun r => (Z.of_nat a <=? e_hour r)%Z) df =
              filter (fun e => (Z.of_nat a <=? e_hour e)%Z && (e_hour e <? 24)%Z) df).
  { apply filter_ext_in. intros e I.
    pose proof (hours_dense_range e D I) as B.
    replace (e_hour e <? 24)%Z with true by (symmetry; apply Z.ltb_lt; lia).
    now rewrite andb_true_r. }
  now rewrite E.
Qed.

Lemma day_partition df :
  Forall (fun e => (0 <= e_hour e < 24)%Z) df ->
  total_revenue df ==
  revenue_in_hours 0 7 df + revenue_in_hours 7 12 df +
  revenue_in_hours 12 18 df + revenue_in_hours 18 24 df.
Proof.
  unfold total_revenue, revenue_in_hours.
  induction 1 as [|e df B F IH]; simpl; [ring|]. rewrite IH.
  destruct (0 <=? e_hour e)%Z eqn:E0; destruct (e_hour e <? 7)%Z eqn:E1;
  destruct (7 <=? e_hour e)%Z eqn:E2; destruct (e_hour e <? 12)%Z eqn:E3;
  destruct (12 <=? e_hour e)%Z eqn:E4; destruct (e_hour e <? 18)%Z eqn:E5;
  destruct (18 <=? e_hour e)%Z eqn:E6; destruct (e_hour e <? 24)%Z eqn:E7;
  simpl; try ring; exfalso;
  rewrite ?Z.leb_le, ?Z.leb_gt, ?Z.ltb_lt, ?Z.ltb_ge in *; lia.
Qed.

Lemma revenue_in_hours_empty a b df :
  (forall e, In e df -> ~ (a <= e_hour e < b)%Z) -> revenue_in_hours a b df == 0.
Proof.
  intros N. unfold revenue_in_hours. rewrite filter_none; [reflexivity|].
  intros e I. specialize (N e I).
  destruct (a <=? e_hour e)%Z eqn:E1; [|reflexivity].
  destruct (e_hour e <? b)%Z eqn:E2; [|reflexivity].
  apply Z.leb_le in E1. apply Z.ltb_lt in E2. exfalso. apply N. lia.
Qed.

(** Whatever the hours are, the three slices are consecutive parts of
    the per-hour table and leave out its first seven entries. *)
Lemma buckets_by_position df :
  morning df + afternoon df + evening df ==
  total_revenue df - Qsum (map snd (firstn 7 (by_hour df))).
Proof.
  assert (T : Qsum (map snd (by_hour df)) == total_revenue df)
    by apply groupby_sum_total.
  rewrite <- T. unfold morning, afternoon, evening, islice, islice_from.
  set (s := by_hour df).
  rewrite <- (firstn_skipn 7 s) at 4.
  rewrite <- (firstn_skipn (12 - 7) (skipn 7 s)) at 2.
  rewrite skipn_skipn. simpl (12 - 7 + 7)%nat.
  rewrite <- (firstn_skipn (18 - 12) (skipn 12 s)) at 2.
  rewrite skipn_skipn. simpl (18 - 12 + 12)%nat.
  rewrite !map_app, !Qsum_app. ring.
Qed.

(** Two sales, at 06:00 and at 08:00. *)
Definition early_sales : list EnrichedTransaction :=
  [ sample_row 1 0 6 "Coffee" "Latte" 1 5 None None;
    sample_row 2 0 8 "Coffee" "Latte" 2 5 None None ].

(** C1, as stated, fails: a sale before 7:00 is in no bucket, so the three
    buckets do not add up to the total; and the buckets are cut by
    position in the per-hour table, so the sale at 8:00 is not in the
    morning sum either. *)
Lemma C1_buckets_miss_revenue :
  ~ (morning early_sales + afternoon early_sales + evening early_sales
     == total_revenue early_sales) /\
  morning early_sales == 0 /\
  revenue_in_hours 7 12 early_sales == 10.
Proof.
  split; [|split]; vm_compute; congruence.
Qed.

(** C1, amended: when the hours that have sales are exactly 0 .. k-1 (so
    that positions and hours of the per-hour table agree), the morning,
    afternoon and evening sums are the revenue of the hours [7,12),
    [12,18) and [18,24), an empty bucket sums to 0, and the three
    together are the total revenue less the revenue before 7:00. *)
Theorem C1_time_buckets k df :
  (k <= 24)%nat -> hours_dense k df ->
  morning df == revenue_in_hours 7 12 df /\
  afternoon df == revenue_in_hours 12 18 df /\
  evening df == revenue_in_hours 18 24 df /\
  morning df + afternoon df + evening df ==
    total_revenue df - revenue_in_hours 0 7 df /\
  (forall a b, (forall e, In e df -> ~ (a <= e_hour e < b)%Z) ->
     revenue_in_hours a b df == 0).
Proof.
  intros L D.
  assert (M : morning df == revenue_in_hours 7 12 df).
  { unfold morning. now rewrite (@by_hour_slice 7 12 k df) by (auto; lia). }
  assert (A : afternoon df == revenue_in_hours 12 18 df).
  { unfold afternoon. now rewrite (@by_hour_slice 12 18 k df) by (auto; lia). }
  assert (E : evening df == revenue_in_hours 18 24 df).
  { unfold evening. now rewrite (@by_hour_from 18 k df) by auto. }
  split; [exact M|]. split; [exact A|]. split; [exact E|].
  split; [|intros a b N; now apply revenue_in_hours_empty].
  rewrite M, A, E, (@day_partition df); [ring|].
  apply Forall_forall. intros e I.
  pose proof (hours_dense_range e D I). lia.
Qed.

(** Sales in each of the hours 0 .. 7. *)
Definition round_the_clock : list EnrichedTransaction :=
  map (fun h => sample_row h 0 h "Coffee" "Latte" 1 (3 # 1) None None)
      [0; 1; 2; 3; 4; 5; 6; 7]%Z.

Lemma C1_time_buckets_witness :
  (8 <= 24)%nat /\ hours_dense 8 round_the_clock /\
  morning round_the_clock == revenue_in_hours 7 12 round_the_clock /\
  morning round_the_clock + afternoon round_the_clock + evening round_the_clock
  == total_revenue round_the_clock - revenue_in_hours 0 7 round_the_clock.
Proof.
  assert (L : (8 <= 24)%nat) by lia.
  assert (D : hours_dense 8 round_the_clock) by reflexivity.
  split; [exact L|]. split; [exact D|].
  split; apply (@C1_time_buckets 8 round_the_clock L D).
Defined.

Example round_the_clock_morning :
  Qred (morning round_the_clock) = 3 /\
  Qred (total_revenue round_the_clock) = 24.
Proof. split; reflexivity. Qed.

(** ** Categories, hours and the total *)

(** The rows of a key that is not missing are all among the rows that
    are grouped. *)
Lemma rows_of_present (key : EnrichedTransaction -> string) c df :
  is_missing c = false ->
  rows_of key c (filter (fun e => negb (is_missing (key e))) df) =
  rows_of key c df.
Proof.
  intros M. unfold rows_of.
  induction df as [|e df IH]; [reflexivity|].
  cbn [filter].
  destruct (keqb (key e) c) eqn:E.
  - assert (C : is_missing (key e) = false).
    { apply keqb_eq in E. now rewrite E. }
    rewrite C. cbn [negb filter]. rewrite E. f_equal. exact IH.
  - destruct (negb (is_missing (key e))); [cbn [filter]; rewrite E|];
      exact IH.
Qed.

(** A key of the grouped rows is not missing. *)
Lemma present_key (key : EnrichedTransaction -> string) c df :
  In c (map key (filter (fun e => negb (is_missing (key e))) df)) <->
  In c (map key df) /\ is_missing c = false.
Proof.
  rewrite !in_map_iff. split.
  - intros [e [<- I]]. apply filter_In in I. destruct I as [I N].
    split; [now exists e|]. now destruct (is_missing (key e)).
  - intros [[e [<- I]] N]. exists e. split; [reflexivity|].
    apply filter_In. split; [exact I|]. now rewrite N.
Qed.

Lemma with_category_all df :
  (forall e, In e df -> is_missing (e_category e) = false) -> with_category df = df.
Proof.
  intros H. unfold with_category. induction df as [|e df IH]; simpl; [reflexivity|].
  rewrite (H e) by now left. simpl. f_equal. apply IH. intros x I. apply H. now right.
Qed.

Lemma total_rev_with_category `{SortValues} df :
  total_rev df == total_revenue (with_category df).
Proof.
  unfold total_rev, by_category. rewrite sort_values_desc_sum.
  apply groupby_sum_total.
Qed.

(** A latte, and a scone whose category cell reads NA. *)
Definition unnamed_category : list EnrichedTransaction :=
  [ sample_row 1 0 8 "Coffee" "Latte" 1 3 None None;
    sample_row 2 0 9 "NA" "Scone" 1 5 None None ].

(** C5, as stated, fails: a row whose category is read as missing is in
    the total revenue and in its hour, but in no category. *)
Lemma C5_missing_category_left_out :
  ~ (total_rev unnamed_category == total_revenue unnamed_category) /\
  Qred (total_rev unnamed_category) = 3 /\
  Qred (Qsum (map snd (by_hour unnamed_category))) = 8 /\
  Qred (total_revenue unnamed_category) = 8.
Proof.
  split; [vm_compute; congruence|]. repeat split.
Qed.

(** C5, amended: the per-hour totals add up to the total revenue; the
    per-category totals add up to the revenue of the rows whose
    category is not missing, and so to the same total when no category
    is missing. *)
Theorem C5_category_hour_total `{SortValues} df :
  Qsum (map snd (by_hour df)) == total_revenue df /\
  total_rev df == total_revenue (with_category df) /\
  ((forall e, In e df -> is_missing (e_category e) = false) ->
     total_rev df == Qsum (map snd (by_hour df)) /\
     total_rev df == total_revenue df).
Proof.
  assert (B : Qsum (map snd (by_hour df)) == total_revenue df)
    by apply groupby_sum_total.
  split; [exact B|]. split; [apply total_rev_with_category|].
  intros N. rewrite B, total_rev_with_category, (with_category_all df N).
  split; reflexivity.
Qed.

Lemma C5_category_hour_total_witness :
  (forall e, In e early_sales -> is_missing (e_category e) = false) /\
  total_rev early_sales == total_revenue early_sales.
Proof.
  assert (N : forall e, In e early_sales -> is_missing (e_category e) = false).
  { intros e [<-|[<-|[]]]; reflexivity. }
  split; [exact N|].
  exact (proj2 (proj2 (proj2 (C5_category_hour_total early_sales)) N)).
Defined.

(** ** Order of a sorted series *)

Lemma firstn_In {A} n (s : list A) y : In y (firstn n s) -> In y s.
Proof.
  intros I. rewrite <- (firstn_skipn n s). apply in_or_app. now left.
Qed.

Lemma firstn_sorted {A} (R : A -> A -> Prop) n : forall s,
  StronglySorted R s -> StronglySorted R (firstn n s).
Proof.
  induction n as [|n IH]; intros s S; simpl; [constructor|].
  destruct S as [|x s S F]; constructor; [now apply IH|].
  rewrite Forall_forall in *. intros y I. apply F.
  now apply (firstn_In n).
Qed.

(** ** Top products *)

(** Position of the first row of a product in the table. *)
Fixpoint first_row (p : string) (df : list EnrichedTransaction) : nat :=
  match df with
  | [] => 0
  | e :: df' => if String.eqb (e_product e) p then 0 else S (first_row p df')
  end.

(** Products of equal revenue are listed in the order of their first
    rows in the table. *)
Definition ties_in_row_order (df : list EnrichedTransaction)
  (top : list (string * Q)) : Prop :=
  forall i j a b, (i < j)%nat ->
    nth_error top i = Some a -> nth_error top j = Some b ->
    snd a == snd b -> (first_row (fst a) df < first_row (fst b) df)%nat.

(** A latte, then a chai, then a mocha, for the same amount. *)
Definition tied_sales : list EnrichedTransaction :=
  [ sample_row 1 0 9 "Coffee" "Latte" 1 5 None None;
    sample_row 2 0 9 "Tea" "Chai" 1 5 None None;
    sample_row 3 0 9 "Coffee" "Mocha" 1 5 None None ].

(** The same three sales with the chai first. *)
Definition tied_sales_chai_first : list EnrichedTransaction :=
  [ sample_row 2 0 9 "Tea" "Chai" 1 5 None None;
    sample_row 1 0 9 "Coffee" "Latte" 1 5 None None;
    sample_row 3 0 9 "Coffee" "Mocha" 1 5 None None ].

(** Whatever the sort does with equal values, it is given the same
    grouped series for the two tables, so the two lists are the same
    and cannot both follow the order of the rows. *)
Lemma tie_order_ignores_rows `{SortValues} :
  top_products tied_sales_chai_first = top_products tied_sales /\
  ~ (ties_in_row_order tied_sales (top_products tied_sales) /\
     ties_in_row_order tied_sales_chai_first (top_products tied_sales_chai_first)).
Proof.
  assert (E : top_products tied_sales_chai_first = top_products tied_sales)
    by reflexivity.
  split; [exact E|]. rewrite E. intros [T1 T2].
  set (g := groupby_sum e_product e_revenue tied_sales).
  assert (P : Permutation g (top_products tied_sales)).
  { unfold top_products. fold g. rewrite firstn_all2.
    - apply sort_values_desc_perm.
    - rewrite sort_values_desc_length. vm_compute. lia. }
  assert (IL : In ("Latte"%string, Qsum [e_revenue (sample_row 1 0 9 "Coffee" "Latte" 1 5 None None)])
                  (top_products tied_sales))
    by (apply (Permutation_in _ P); vm_compute; tauto).
  assert (IC : In ("Chai"%string, Qsum [e_revenue (sample_row 2 0 9 "Tea" "Chai" 1 5 None None)])
                  (top_products tied_sales))
    by (apply (Permutation_in _ P); vm_compute; tauto).
  apply In_nth_error in IL. destruct IL as [i Ei].
  apply In_nth_error in IC. destruct IC as [j Ej].
  destruct (Nat.lt_trichotomy i j) as [L|[L|L]].
  - specialize (T2 i j _ _ L Ei Ej). vm_compute in T2. specialize (T2 eq_refl).
    apply Nat.lt_irrefl with 0%nat. apply Nat.le_trans with 2%nat; [lia|exact T2].
  - subst j. rewrite Ei in Ej. discriminate.
  - specialize (T1 j i _ _ L Ej Ei). vm_compute in T1. specialize (T1 eq_refl).
    apply Nat.lt_irrefl with 0%nat. apply Nat.le_trans with 2%nat; [lia|exact T1].
Qed.

(** C6, as stated, fails: the series that is sorted is the grouped one,
    whose products are in ascending order of name; the chai is listed
    before the latte although the latte was sold first, and the list is
    the same when the chai is sold first. *)
Lemma C6_ties_not_in_row_order :
  map fst (top_products tied_sales) = ["Chai"; "Latte"; "Mocha"]%string /\
  ~ ties_in_row_order tied_sales (top_products tied_sales) /\
  top_products tied_sales_chai_first = top_products tied_sales.
Proof.
  split; [reflexivity|]. split; [|reflexivity]. intros T.
  assert (L := T 0%nat 1%nat _ _ (le_n 1) eq_refl eq_refl).
  vm_compute in L. specialize (L eq_refl).
  apply Nat.lt_irrefl with 0%nat. apply Nat.le_trans with 2%nat; [lia|exact L].
Qed.

Lemma top_products_entries `{SortValues} df p v :
  In (p, v) (top_products df) ->
  v = Qsum (map e_revenue (rows_of e_product p df)).
Proof.
  unfold top_products. intros I. apply firstn_In in I.
  apply (Permutation_in _ (Permutation_sym (sort_values_desc_perm _))) in I.
  unfold groupby_sum, agg_sum in I. apply in_map_iff in I.
  destruct I as [[k g] [E I]]. simpl in E. injection E as Ek Ev. subst p v.
  rewrite (groupby_In e_product (with_product df) k g I).
  unfold with_product. rewrite rows_of_present; [reflexivity|].
  apply (present_key e_product k df). apply (groupby_keys e_product).
  change k with (fst (k, g)). now apply in_map.
Qed.

(** C6, amended: the list has min(5, number of distinct products)
    entries, a cell read as missing being no product, each entry a
    product with the sum of its revenue, in descending order of
    revenue; this holds for every sort that orders by value, whatever
    it does with products of equal revenue: no order is promised among
    them. *)
Theorem C6_top_products `{SortValues} df :
  length (top_products df) =
    Nat.min 5 (length (nodup string_dec (map e_product (with_product df)))) /\
  (forall p v, In (p, v) (top_products df) ->
     v = Qsum (map e_revenue (rows_of e_product p df))) /\
  StronglySorted descending (top_products df).
Proof.
  split; [|split].
  - unfold top_products.
    rewrite length_firstn, sort_values_desc_length.
    unfold groupby_sum, agg_sum. rewrite length_map.
    now rewrite (groupby_length e_product string_dec).
  - apply top_products_entries.
  - unfold top_products. apply firstn_sorted. apply sort_values_desc_sorted.
Qed.

Lemma C6_top_products_witness :
  In ("Latte"%string, 5) (top_products tied_sales) /\
  5 = Qsum (map e_revenue (rows_of e_product "Latte"%string tied_sales)).
Proof.
  assert (I : In ("Latte"%string, 5) (top_products tied_sales))
    by (vm_compute; auto).
  split; [exact I|].
  exact (proj1 (proj2 (C6_top_products tied_sales)) _ _ I).
Defined.

(** ** Daily summary *)

Definition rows_on (d : Z) (df : list EnrichedTransaction)
  : list EnrichedTransaction :=
  filter (fun e => Z.eqb (e_date e) d) df.

(** [v] is the first cell of [cells] that is not null, or null when all
    cells are. *)
Definition first_non_null (cells : list (option Q)) (v : option Q) : Prop :=
  match v with
  | Some x => exists before after,
      cells = before ++ Some x :: after /\ Forall (fun c => c = None) before
  | None => Forall (fun c => c = None) cells
  end.

Lemma first_valid_spec cells : first_non_null cells (first_valid cells).
Proof.
  induction cells as [|[x|] cells IH]; simpl.
  - constructor.
  - exists [], cells. split; [reflexivity|constructor].
  - destruct (first_valid cells) as [x|]; simpl in *.
    + destruct IH as (before & after & -> & F).
      exists (None :: before), after. split; [reflexivity|now constructor].
    + now constructor.
Qed.

Lemma rows_of_date d df : rows_of e_date d df = rows_on d df.
Proof.
  unfold rows_of, rows_on. apply filter_ext. intros e.
  unfold keqb. simpl.
  destruct (Z.eqb_spec (e_date e) d) as [->|N].
  - now rewrite Z.compare_refl.
  - destruct (e_date e ?= d)%Z eqn:C; try reflexivity.
    apply Z.compare_eq_iff in C. contradiction.
Qed.

Lemma daily_dates df : map ds_date (daily df) = map fst (groupby e_date df).
Proof. unfold daily. rewrite map_map. reflexivity. Qed.

(** [daily] has one row per date. *)
Lemma daily_dates_NoDup df : NoDup (map ds_date (daily df)).
Proof. rewrite daily_dates. apply groupby_keys_NoDup. Qed.

Lemma daily_row df s :
  In s (daily df) -> s = summarise (ds_date s, rows_on (ds_date s) df).
Proof.
  unfold daily. intros I. apply in_map_iff in I. destruct I as [[k g] [<- I]].
  simpl. rewrite <- rows_of_date. now rewrite <- (groupby_In e_date df k g I).
Qed.

(** C7: for a date of the table, [daily] has exactly one row; it counts
    the rows of that date, sums their revenue, and carries the first
    non-null temperature and rain of these rows. *)
Theorem C7_daily_summary df d :
  In d (map e_date df) ->
  exists s, In s (daily df) /\ ds_date s = d /\
    (forall s', In s' (daily df) -> ds_date s' = d -> s' = s) /\
    ds_transactions s = length (rows_on d df) /\
    ds_revenue s == Qsum (map e_revenue (rows_on d df)) /\
    first_non_null (map temperature (rows_on d df)) (ds_temperature s) /\
    first_non_null (map rain (rows_on d df)) (ds_rain s).
Proof.
  intros I. apply in_map_iff in I. destruct I as [e [<- I]].
  exists (summarise (e_date e, rows_on (e_date e) df)).
  split; [|split; [reflexivity|split]].
  - unfold daily. apply in_map_iff.
    exists (e_date e, rows_of e_date (e_date e) df).
    split; [now rewrite rows_of_date|]. now apply (groupby_present e_date).
  - intros s' I' E. rewrite (daily_row df s' I'). now rewrite E.
  - simpl. repeat split; try reflexivity; apply first_valid_spec.
Qed.

(** The scenario of the specification: two sales on one day, 2 at 3.00
    and 1 at 5.00. *)
Definition two_sales : list EnrichedTransaction :=
  [ sample_row 1 17 8 "Coffee" "Latte" 2 3 None (Some 0);
    sample_row 2 17 9 "Tea" "Chai" 1 5 (Some 41) (Some 0) ].

Lemma C7_daily_summary_witness :
  In 17%Z (map e_date two_sales) /\
  exists s, In s (daily two_sales) /\ ds_date s = 17%Z /\
    (forall s', In s' (daily two_sales) -> ds_date s' = 17%Z -> s' = s) /\
    ds_transactions s = length (rows_on 17 two_sales) /\
    ds_revenue s == Qsum (map e_revenue (rows_on 17 two_sales)) /\
    first_non_null (map temperature (rows_on 17 two_sales)) (ds_temperature s) /\
    first_non_null (map rain (rows_on 17 two_sales)) (ds_rain s).
Proof.
  assert (I : In 17%Z (map e_date two_sales)) by (simpl; auto).
  split; [exact I|]. exact (C7_daily_summary two_sales 17 I).
Defined.

Example two_sales_daily :
  map (fun s => (ds_date s, Qred (ds_revenue s), ds_temperature s, ds_transactions s))
      (daily two_sales) = [(17%Z, 11, Some 41, 2%nat)].
Proof. reflexivity. Qed.

(** ** The left join *)

Lemma weather_on_unique d weather :
  NoDup (map wdate weather) -> (length (weather_on d weather) <= 1)%nat.
Proof.
  unfold weather_on. induction weather as [|w ws IH]; simpl; intros N; [lia|].
  inversion N as [|? ? N1 N2]; subst.
  destruct (Z.eqb_spec (wdate w) d) as [E|E]; [|now apply IH].
  simpl. rewrite (@filter_none _ (fun w0 => (wdate w0 =? d)%Z) ws); [simpl; lia|].
  intros x I. apply Z.eqb_neq. intros E'. apply N1. rewrite E, <- E'.
  now apply in_map.
Qed.

Lemma weather_on_In d weather w :
  In w (weather_on d weather) <-> In w weather /\ wdate w = d.
Proof. unfold weather_on. rewrite filter_In, Z.eqb_eq. reflexivity. Qed.

Lemma merge_row_sale weather r :
  map sale (merge_row weather r) = repeat r (Nat.max 1 (length (weather_on (date r) weather))).
Proof.
  unfold merge_row. destruct (weather_on (date r) weather) as [|w ws]; [reflexivity|].
  change (Nat.max 1 (length (w :: ws))) with (length (w :: ws)).
  induction (w :: ws) as [|x l IH]; simpl; [reflexivity|]. now rewrite IH.
Qed.

Lemma merge_left_split before r after weather :
  merge_left (before ++ r :: after) weather =
  merge_left before weather ++ merge_row weather r ++ merge_left after weather.
Proof. unfold merge_left. now rewrite flat_map_app. Qed.

Lemma merge_left_length rows weather :
  (length rows <= length (merge_left rows weather))%nat.
Proof.
  unfold merge_left. induction rows as [|r rows IH]; simpl; [lia|].
  rewrite length_app, <- (length_map sale (merge_row weather r)), merge_row_sale,
    repeat_length. lia.
Qed.

(** The weather cells of a joined row are those of a weather row of its
    date, and null when the date has no weather row. *)
Definition weather_of_date (weather : list DailyWeather)
  (e : EnrichedTransaction) : Prop :=
  (exists w, In w weather /\ wdate w = e_date e /\
             temperature e = wtemperature w /\ rain e = wrain w) \/
  ((forall w, In w weather -> wdate w <> e_date e) /\
   temperature e = None /\ rain e = None).

Lemma merge_row_weather weather r e :
  In e (merge_row weather r) -> sale e = r /\ weather_of_date weather e.
Proof.
  unfold merge_row. destruct (weather_on (date r) weather) as [|w ws] eqn:W.
  - intros [<-|[]]. split; [reflexivity|]. right. simpl. repeat split.
    intros w I E. assert (J : In w (weather_on (date r) weather))
      by (apply weather_on_In; auto).
    now rewrite W in J.
  - intros I. apply in_map_iff in I. destruct I as [x [<- I]].
    split; [reflexivity|]. left. exists x.
    rewrite <- W in I. apply weather_on_In in I. tauto.
Qed.

(** C9: with distinct weather dates the join keeps the rows, their number
    and their order, and gives each row the weather of its date, or
    nulls; a row whose date has several weather rows is repeated in
    place, once per weather row, and the joined table is then longer
    than the table of rows. *)
Theorem C9_left_join rows weather :
  (NoDup (map wdate weather) -> map sale (merge_left rows weather) = rows) /\
  (forall e, In e (merge_left rows weather) ->
     In (sale e) rows /\ weather_of_date weather e) /\
  (forall before r after, rows = before ++ r :: after ->
     weather_on (date r) weather <> [] ->
     merge_left rows weather =
       merge_left before weather ++
       map (with_weather r) (weather_on (date r) weather) ++
       merge_left after weather) /\
  (forall r, In r rows -> (2 <= length (weather_on (date r) weather))%nat ->
     (length rows < length (merge_left rows weather))%nat).
Proof.
  split; [|split; [|split]].
  - intros N. unfold merge_left. induction rows as [|r rows IH]; [reflexivity|].
    simpl. rewrite map_app, IH, merge_row_sale.
    pose proof (weather_on_unique (date r) weather N).
    now replace (Nat.max 1 (length (weather_on (date r) weather))) with 1%nat by lia.
  - intros e I. unfold merge_left in I. apply in_flat_map in I.
    destruct I as [r [Ir Ie]]. destruct (merge_row_weather _ _ _ Ie) as [<- W].
    now split.
  - intros before r after -> W. rewrite merge_left_split. f_equal. f_equal.
    unfold merge_row. now destruct (weather_on (date r) weather).
  - intros r I L. apply in_split in I. destruct I as (before & after & ->).
    rewrite merge_left_split, !length_app.
    pose proof (merge_left_length before weather).
    pose proof (merge_left_length after weather).
    rewrite <- (length_map sale (merge_row weather r)), merge_row_sale, repeat_length.
    cbn [length]. lia.
Qed.

Definition june_sales : list SalesRow :=
  map derive [ sample_txn 1 151 8 "Coffee" "Latte" 1 4;
               sample_txn 2 152 9 "Tea" "Chai" 2 3;
               sample_txn 3 151 10 "Coffee" "Mocha" 1 5 ].

Definition june_weather : list DailyWeather :=
  [ {| wdate := 151; wtemperature := Some 68; wrain := Some 0 |};
    {| wdate := 153; wtemperature := Some 71; wrain := None |} ].

Definition doubled_weather : list DailyWeather :=
  {| wdate := 151; wtemperature := Some 66; wrain := Some 1 |} :: june_weather.

Lemma C9_left_join_witness :
  map sale (merge_left june_sales june_weather) = june_sales /\
  (length june_sales < length (merge_left june_sales doubled_weather))%nat.
Proof.
  split.
  - apply (C9_left_join june_sales june_weather).
    repeat constructor; simpl; intuition discriminate.
  - apply (C9_left_join june_sales doubled_weather) with (r := nth 0 june_sales (derive (sample_txn 0 0 0 "" "" 0 0))).
    + simpl. auto.
    + simpl. lia.
Defined.

Example doubled_weather_rows :
  map (fun e => (transaction_id (txn (sale e)), temperature e))
      (merge_left june_sales doubled_weather)
  = [(1%Z, Some 66); (1%Z, Some 68); (2%Z, None); (3%Z, Some 66); (3%Z, Some 68)].
Proof. reflexivity. Qed.

(** ** Pearson's coefficient: range and degenerate cases *)






Lemma Q2R_pos (q : Q) : 0 < q -> (0 < Q2R q)%R.
Proof. intros L. apply Qlt_Rlt in L. now rewrite RMicromega.Q2R_0 in L. Qed.

Lemma root_product_sq (a b : R) :
  (0 < a -> 0 < b ->
   0 < sqrt a * sqrt b /\ (sqrt a * sqrt b) * (sqrt a * sqrt b) = a * b)%R.
Proof.
  intros Ha Hb. split.
  - apply Rmult_lt_0_compat; now apply sqrt_lt_R0.
  - replace (sqrt a * sqrt b * (sqrt a * sqrt b))%R
      with ((sqrt a * sqrt a) * (sqrt b * sqrt b))%R by ring.
    rewrite !sqrt_sqrt; lra.
Qed.








Lemma count_of_pos {A} (x : A) xs : 0 < count_of (x :: xs).
Proof.
  unfold count_of. cbn [length]. rewrite Nat2Z.inj_succ.
  unfold Qlt. simpl. lia.
Qed.


(** ** Comparing the coefficient with a threshold *)

Lemma pearson_value ps :
  0 < sq_dev (map fst ps) -> 0 < sq_dev (map snd ps) ->
  pearson ps =
  Some (Q2R (co_dev ps) /
        (sqrt (Q2R (sq_dev (map fst ps))) * sqrt (Q2R (sq_dev (map snd ps)))))%R.
Proof.
  intros PA PB. unfold pearson.
  assert (EA : Qeq_bool (sq_dev (map fst ps)) 0 = false).
  { destruct (Qeq_bool (sq_dev (map fst ps)) 0) eqn:E; [|reflexivity].
    apply Qeq_bool_iff in E. rewrite E in PA. now apply Qlt_irrefl in PA. }
  assert (EB : Qeq_bool (sq_dev (map snd ps)) 0 = false).
  { destruct (Qeq_bool (sq_dev (map snd ps)) 0) eqn:E; [|reflexivity].
    apply Qeq_bool_iff in E. rewrite E in PB. now apply Qlt_irrefl in PB. }
  now rewrite EA, EB.
Qed.

Lemma ratio_above (t c s : R) :
  (0 <= t -> 0 < c -> 0 < s -> t * t * (s * s) < c * c -> t < c / s)%R.
Proof.
  intros Ht Hc Hs H. assert (L : (t * s < c)%R) by nra.
  apply Rmult_lt_reg_r with s; [exact Hs|].
  unfold Rdiv. rewrite Rmult_assoc, Rinv_l; lra.
Qed.

Lemma ratio_abs_below (t c s : R) :
  (0 < t -> 0 < s -> c * c < t * t * (s * s) -> Rabs (c / s) < t)%R.
Proof.
  intros Ht Hs H.
  assert (U : (0 < t * s)%R) by now apply Rmult_lt_0_compat.
  assert (H' : (c * c < (t * s) * (t * s))%R) by lra.
  assert (L : (- (t * s) < c < t * s)%R).
  { split.
    - destruct (Rlt_le_dec (- (t * s)) c) as [?|G]; [assumption|]. exfalso. nra.
    - destruct (Rlt_le_dec c (t * s)) as [?|G]; [assumption|]. exfalso. nra. }
  apply Rabs_def1.
  - apply Rmult_lt_reg_r with s; [exact Hs|].
    unfold Rdiv. rewrite Rmult_assoc, Rinv_l; lra.
  - apply Rmult_lt_reg_r with s; [exact Hs|].
    unfold Rdiv. rewrite Rmult_assoc, Rinv_l; lra.
Qed.

(** A test on the rational moments that places the coefficient above a
    threshold. *)
Lemma pearson_above ps (t : Q) :
  0 <= t -> 0 < sq_dev (map fst ps) -> 0 < sq_dev (map snd ps) ->
  0 < co_dev ps ->
  t * t * (sq_dev (map fst ps) * sq_dev (map snd ps)) < co_dev ps * co_dev ps ->
  exists x, pearson ps = Some x /\ (Q2R t < x)%R.
Proof.
  intros Ht PA PB PC H. eexists. split; [now apply pearson_value|].
  destruct (root_product_sq (Q2R_pos PA) (Q2R_pos PB)) as (Ps & Es).
  apply ratio_above; [|now apply Q2R_pos|exact Ps|].
  - apply Qle_Rle in Ht. now rewrite RMicromega.Q2R_0 in Ht.
  - rewrite Es. apply Qlt_Rlt in H. now rewrite !Q2R_mult in H.
Qed.

(** A test that places the coefficient within a threshold of zero. *)
Lemma pearson_within ps (t : Q) :
  0 < t -> 0 < sq_dev (map fst ps) -> 0 < sq_dev (map snd ps) ->
  co_dev ps * co_dev ps < t * t * (sq_dev (map fst ps) * sq_dev (map snd ps)) ->
  exists x, pearson ps = Some x /\ (Rabs x < Q2R t)%R.
Proof.
  intros Ht PA PB H. eexists. split; [now apply pearson_value|].
  destruct (root_product_sq (Q2R_pos PA) (Q2R_pos PB)) as (Ps & Es).
  apply ratio_abs_below; [now apply Q2R_pos|exact Ps|].
  rewrite Es. apply Qlt_Rlt in H. now rewrite !Q2R_mult in H.
Qed.

Lemma fgt_true r t : fgt r t = true <-> exists x, r = Some x /\ (t < x)%R.
Proof.
  unfold fgt. destruct r as [v|].
  - destruct (Rlt_dec t v) as [L|N]; split; try discriminate; eauto.
    intros (x & E & L). injection E as ->. contradiction.
  - split; [discriminate|]. intros (x & E & _). discriminate.
Qed.

Lemma fgt_false r t :
  fgt r t = false <-> r = None \/ exists x, r = Some x /\ (x <= t)%R.
Proof.
  unfold fgt. destruct r as [v|].
  - destruct (Rlt_dec t v) as [L|N]; split; try discriminate; try reflexivity.
    + intros [E|(x & E & Lx)]; [discriminate|]. injection E as ->. lra.
    + intros _. right. exists v. split; [reflexivity|lra].
  - split; auto.
Qed.

Lemma flt_true r t : flt r t = true <-> exists x, r = Some x /\ (x < t)%R.
Proof.
  unfold flt. destruct r as [v|].
  - destruct (Rlt_dec v t) as [L|N]; split; try discriminate; eauto.
    intros (x & E & L). injection E as ->. contradiction.
  - split; [discriminate|]. intros (x & E & _). discriminate.
Qed.

Lemma flt_false r t :
  flt r t = false <-> r = None \/ exists x, r = Some x /\ (t <= x)%R.
Proof.
  unfold flt. destruct r as [v|].
  - destruct (Rlt_dec v t) as [L|N]; split; try discriminate; try reflexivity.
    + intros [E|(x & E & Lx)]; [discriminate|]. injection E as ->. lra.
    + intros _. right. exists v. split; [reflexivity|lra].
  - split; auto.
Qed.

Lemma cell_lt_spec x t : cell_lt x t = true <-> exists v, x = Some v /\ v < t.
Proof.
  unfold cell_lt, Qlt_bool. destruct x as [v|].
  - rewrite negb_true_iff. split.
    + intros E. exists v. split; [reflexivity|]. apply Qnot_le_lt. intros L.
      apply Qle_bool_iff in L. congruence.
    + intros (v' & E & L). injection E as ->.
      destruct (Qle_bool t v') eqn:B; [|reflexivity].
      apply Qle_bool_iff in B. lra.
  - split; [discriminate|]. intros (v & E & _). discriminate.
Qed.

Lemma cell_gt_spec x t : cell_gt x t = true <-> exists v, x = Some v /\ t < v.
Proof.
  unfold cell_gt, Qlt_bool. destruct x as [v|].
  - rewrite negb_true_iff. split.
    + intros E. exists v. split; [reflexivity|]. apply Qnot_le_lt. intros L.
      apply Qle_bool_iff in L. congruence.
    + intros (v' & E & L). injection E as ->.
      destruct (Qle_bool v' t) eqn:B; [|reflexivity].
      apply Qle_bool_iff in B. lra.
  - split; [discriminate|]. intros (v & E & _). discriminate.
Qed.

Lemma cell_eq_spec x t : cell_eq x t = true <-> exists v, x = Some v /\ v == t.
Proof.
  unfold cell_eq. destruct x as [v|].
  - rewrite Qeq_bool_iff. split; eauto.
    intros (v' & E & L). now injection E as ->.
  - split; [discriminate|]. intros (v & E & _). discriminate.
Qed.

(** ** The correlation coefficients *)

Definition day (d : Z) (rev : Q) (temp wet : option Q) : DailySummary :=
  {| ds_date := d; ds_revenue := rev; ds_temperature := temp; ds_rain := wet;
     ds_transactions := 1 |}.



Lemma temperature_report_nan days :
  correlation_temp days = None -> temperature_report days = WeakTemperature.
Proof. unfold temperature_report. now intros ->. Qed.

Lemma rain_report_nan days :
  correlation_rain days = None -> rain_report days = PositiveRain.
Proof. unfold rain_report. now intros ->. Qed.






(** ** Temperature classification *)

Definition uplift (warm cold : option Q) : option Q :=
  cell_mul (cell_sub (cell_div warm cold) (Some 1)) (Some 100).

(** Six days: the two coldest and warmest go against the trend of the
    other four. *)
Definition cold_snap_days : list DailySummary :=
  [ day 1 52 (Some 39) None;  day 2 48 (Some 71) None;
    day 3 0 (Some 41) None;   day 4 100 (Some 69) None;
    day 5 0 (Some 41) None;   day 6 100 (Some 69) None ].

Lemma seven_tenths : Q2R (7 # 10) = (7 / 10)%R.
Proof. unfold Q2R. simpl. lra. Qed.

Lemma cold_snap_strong :
  exists x, correlation_temp cold_snap_days = Some x /\ (7 / 10 < x)%R.
Proof.
  rewrite <- seven_tenths. unfold correlation_temp.
  apply pearson_above; vm_compute; congruence.
Qed.

(** C3, as stated, fails: the difference that is reported is signed, warm
    less cold; here the coefficient is above 0.70 and the difference is
    -4, not the absolute difference 4. *)
Lemma C3_difference_is_signed :
  exists cold warm d u,
    temperature_report cold_snap_days =
      StrongPositive (Some cold) (Some warm) (Some d) u /\
    d == - (4) /\ Qabs (warm - cold) == 4.
Proof.
  assert (G : fgt (correlation_temp cold_snap_days) (7 / 10) = true).
  { apply fgt_true. exact cold_snap_strong. }
  unfold temperature_report. rewrite G.
  eexists _, _, _, _. split; [reflexivity|]. split; reflexivity.
Qed.

(** C3, amended: above 0.70 the report is "strong positive" with the mean
    revenue of the days below 40°F and of the days above 70°F, the
    difference warm less cold (signed), and the uplift
    (warm / cold - 1) * 100; above 0.30 and up to 0.70 it is "moderate
    positive"; for any other value and for NaN it is "weak". *)
Theorem C3_temperature_table days :
  (forall x, correlation_temp days = Some x -> (7 / 10 < x)%R ->
     temperature_report days =
       StrongPositive (temp_cold days) (temp_warm days)
         (cell_sub (temp_warm days) (temp_cold days))
         (uplift (temp_warm days) (temp_cold days))) /\
  (forall x, correlation_temp days = Some x -> (3 / 10 < x <= 7 / 10)%R ->
     temperature_report days = ModeratePositive) /\
  (forall x, correlation_temp days = Some x -> (x <= 3 / 10)%R ->
     temperature_report days = WeakTemperature) /\
  (correlation_temp days = None -> temperature_report days = WeakTemperature) /\
  temp_cold days =
    Qmean (map ds_revenue (filter (fun d => cell_lt (ds_temperature d) 40) days)) /\
  temp_warm days =
    Qmean (map ds_revenue (filter (fun d => cell_gt (ds_temperature d) 70) days)) /\
  (forall c w, temp_cold days = Some c -> temp_warm days = Some w -> ~ c == 0 ->
     cell_sub (temp_warm days) (temp_cold days) = Some (w - c) /\
     uplift (temp_warm days) (temp_cold days) = Some ((w / c - 1) * 100)).
Proof.
  unfold temperature_report.
  split; [|split; [|split; [|split; [|split; [|split]]]]].
  - intros x E L.
    assert (G : fgt (correlation_temp days) (7 / 10) = true)
      by (apply fgt_true; eauto).
    now rewrite G.
  - intros x E [L U].
    assert (G : fgt (correlation_temp days) (7 / 10) = false)
      by (apply fgt_false; eauto).
    assert (G' : fgt (correlation_temp days) (3 / 10) = true)
      by (apply fgt_true; eauto).
    now rewrite G, G'.
  - intros x E U.
    assert (G : fgt (correlation_temp days) (7 / 10) = false).
    { apply fgt_false. right. exists x. split; [exact E|lra]. }
    assert (G' : fgt (correlation_temp days) (3 / 10) = false)
      by (apply fgt_false; eauto).
    now rewrite G, G'.
  - now intros ->.
  - reflexivity.
  - reflexivity.
  - intros c w -> -> N. unfold uplift. simpl.
    destruct (Qeq_bool c 0) eqn:E; [|split; reflexivity].
    apply Qeq_bool_iff in E. contradiction.
Qed.

Lemma C3_temperature_table_witness :
  exists x, correlation_temp cold_snap_days = Some x /\ (7 / 10 < x)%R /\
  temperature_report cold_snap_days =
    StrongPositive (temp_cold cold_snap_days) (temp_warm cold_snap_days)
      (cell_sub (temp_warm cold_snap_days) (temp_cold cold_snap_days))
      (uplift (temp_warm cold_snap_days) (temp_cold cold_snap_days)).
Proof.
  destruct cold_snap_strong as (x & E & L).
  exists x. split; [exact E|]. split; [exact L|].
  exact (proj1 (C3_temperature_table cold_snap_days) x E L).
Defined.

(** ** Rain classification *)

(** Four days on which rain and revenue are unrelated. *)
Definition showers_days : list DailySummary :=
  [ day 1 100 None (Some 0); day 2 200 None (Some 0);
    day 3 100 None (Some 1); day 4 200 None (Some 1) ].

Lemma two_tenths : Q2R (2 # 10) = (2 / 10)%R.
Proof. unfold Q2R. simpl. lra. Qed.

Lemma showers_weak :
  exists x, correlation_rain showers_days = Some x /\ (Rabs x < 2 / 10)%R.
Proof.
  rewrite <- two_tenths. unfold correlation_rain.
  apply pearson_within; vm_compute; congruence.
Qed.

(** C4: within 0.20 of zero the report is "weak" with the mean revenue of
    the days with rain, of the days without, and their absolute
    difference; otherwise it is "negative" below zero and "positive"
    else, NaN included; the two means are in the weak report only. *)
Theorem C4_rain_table days :
  (forall x, correlation_rain days = Some x -> (Rabs x < 2 / 10)%R ->
     rain_report days =
       WeakRain (rainy days) (no_rain days)
         (cell_abs (cell_sub (no_rain days) (rainy days)))) /\
  (forall x, correlation_rain days = Some x ->
     (2 / 10 <= Rabs x)%R -> (x < 0)%R -> rain_report days = NegativeRain) /\
  (forall x, correlation_rain days = Some x ->
     (2 / 10 <= Rabs x)%R -> (0 <= x)%R -> rain_report days = PositiveRain) /\
  (correlation_rain days = None -> rain_report days = PositiveRain) /\
  (forall a b c, rain_report days = WeakRain a b c ->
     exists x, correlation_rain days = Some x /\ (Rabs x < 2 / 10)%R) /\
  rainy days =
    Qmean (map ds_revenue (filter (fun d => cell_gt (ds_rain d) 0) days)) /\
  no_rain days =
    Qmean (map ds_revenue (filter (fun d => cell_eq (ds_rain d) 0) days)) /\
  (forall w n, rainy days = Some w -> no_rain days = Some n ->
     cell_abs (cell_sub (no_rain days) (rainy days)) = Some (Qabs (n - w))).
Proof.
  unfold rain_report.
  split; [|split; [|split; [|split; [|split; [|split; [|split]]]]]].
  - intros x E L.
    assert (G : flt (fabs (correlation_rain days)) (2 / 10) = true).
    { apply flt_true. exists (Rabs x). rewrite E. auto. }
    now rewrite G.
  - intros x E L N.
    assert (G : flt (fabs (correlation_rain days)) (2 / 10) = false).
    { apply flt_false. right. exists (Rabs x). rewrite E. auto. }
    assert (G' : flt (correlation_rain days) 0 = true)
      by (apply flt_true; eauto).
    now rewrite G, G'.
  - intros x E L N.
    assert (G : flt (fabs (correlation_rain days)) (2 / 10) = false).
    { apply flt_false. right. exists (Rabs x). rewrite E. auto. }
    assert (G' : flt (correlation_rain days) 0 = false)
      by (apply flt_false; eauto).
    now rewrite G, G'.
  - now intros ->.
  - intros a b c.
    destruct (flt (fabs (correlation_rain days)) (2 / 10)) eqn:G.
    + intros _. apply flt_true in G. destruct G as (y & E & L).
      destruct (correlation_rain days) as [x|]; [|discriminate].
      exists x. split; [reflexivity|]. simpl in E. now injection E as <-.
    + destruct (flt (correlation_rain days) 0); discriminate.
  - reflexivity.
  - reflexivity.
  - now intros w n -> ->.
Qed.

Lemma C4_rain_table_witness :
  exists x, correlation_rain showers_days = Some x /\ (Rabs x < 2 / 10)%R /\
  rain_report showers_days =
    WeakRain (rainy showers_days) (no_rain showers_days)
      (cell_abs (cell_sub (no_rain showers_days) (rainy showers_days))).
Proof.
  destruct showers_weak as (x & E & L).
  exists x. split; [exact E|]. split; [exact L|].
  exact (proj1 (C4_rain_table showers_days) x E L).
Defined.

(** ** Days without a rain value *)

Definition rain_known (d : DailySummary) : bool :=
  match ds_rain d with Some _ => true | None => false end.

Lemma filter_known (mask : DailySummary -> bool) days :
  (forall d, mask d = true -> rain_known d = true) ->
  filter mask (filter rain_known days) = filter mask days.
Proof.
  intros M. induction days as [|d days IH]; simpl; [reflexivity|].
  destruct (rain_known d) eqn:K; simpl; [now rewrite IH|].
  destruct (mask d) eqn:E; [|exact IH].
  apply M in E. congruence.
Qed.

Lemma rain_mask_known (mask : option Q -> bool) d :
  mask None = false -> mask (ds_rain d) = true -> rain_known d = true.
Proof. unfold rain_known. destruct (ds_rain d); congruence. Qed.

Lemma paired_known days :
  paired ds_rain (filter rain_known days) = paired ds_rain days.
Proof.
  unfold paired, rain_known. induction days as [|d days IH]; simpl; [reflexivity|].
  destruct (ds_rain d) eqn:E; simpl; [now rewrite E, IH|exact IH].
Qed.

Lemma present_known days :
  present ds_rain (filter rain_known days) = present ds_rain days.
Proof.
  unfold present, rain_known. induction days as [|d days IH]; simpl; [reflexivity|].
  destruct (ds_rain d) eqn:E; simpl; [now rewrite E, IH|exact IH].
Qed.

(** C8: a day without a rain value passes neither the mask [rain > 0] nor
    the mask [rain == 0]; dropping such days changes none of the rain
    statistics: the two means, the number of days with rain, the
    rainiest day, the coefficient and with it the rain report. *)
Theorem C8_null_rain_excluded days :
  (forall d, ds_rain d = None ->
     cell_gt (ds_rain d) 0 = false /\ cell_eq (ds_rain d) 0 = false) /\
  rainy (filter rain_known days) = rainy days /\
  no_rain (filter rain_known days) = no_rain days /\
  days_with_rain (filter rain_known days) = days_with_rain days /\
  rainiest_day (filter rain_known days) = rainiest_day days /\
  correlation_rain (filter rain_known days) = correlation_rain days /\
  rain_report (filter rain_known days) = rain_report days.
Proof.
  assert (G : filter (fun d => cell_gt (ds_rain d) 0) (filter rain_known days) =
              filter (fun d => cell_gt (ds_rain d) 0) days).
  { apply filter_known. intros d.
    now apply (rain_mask_known (fun c => cell_gt c 0)). }
  assert (E : filter (fun d => cell_eq (ds_rain d) 0) (filter rain_known days) =
              filter (fun d => cell_eq (ds_rain d) 0) days).
  { apply filter_known. intros d.
    now apply (rain_mask_known (fun c => cell_eq c 0)). }
  assert (R1 : rainy (filter rain_known days) = rainy days)
    by (unfold rainy, mean_revenue_where; now rewrite G).
  assert (R2 : no_rain (filter rain_known days) = no_rain days)
    by (unfold no_rain, mean_revenue_where; now rewrite E).
  assert (R3 : correlation_rain (filter rain_known days) = correlation_rain days)
    by (unfold correlation_rain; now rewrite paired_known).
  split; [now intros d ->|]. split; [exact R1|]. split; [exact R2|].
  split; [unfold days_with_rain; now rewrite G|].
  split; [unfold rainiest_day; now rewrite present_known|].
  split; [exact R3|]. unfold rain_report. now rewrite R1, R2, R3.
Qed.

(** Three days, the second without weather. *)
Definition gap_days : list DailySummary :=
  [ day 1 100 (Some 50) (Some 0); day 2 900 None None;
    day 3 200 (Some 60) (Some 1) ].

Lemma C8_null_rain_excluded_witness :
  ds_rain (day 2 900 None None) = None /\
  cell_gt (ds_rain (day 2 900 None None)) 0 = false /\
  cell_eq (ds_rain (day 2 900 None None)) 0 = false /\
  rainy (filter rain_known gap_days) = rainy gap_days.
Proof.
  assert (N : ds_rain (day 2 900 None None) = None) by reflexivity.
  split; [exact N|].
  split; [exact (proj1 (proj1 (C8_null_rain_excluded gap_days) _ N))|].
  split; [exact (proj2 (proj1 (C8_null_rain_excluded gap_days) _ N))|].
  exact (proj1 (proj2 (C8_null_rain_excluded gap_days))).
Defined.

Example gap_days_rain :
  option_map Qred (rainy gap_days) = Some 200 /\
  option_map Qred (no_rain gap_days) = Some 100 /\
  days_with_rain gap_days = 1%nat.
Proof. repeat split. Qed.

(** ** The whole run *)

Fixpoint Qmin_list (xs : list Q) : option Q :=
  match xs with
  | [] => None
  | x :: xs' =>
      match Qmin_list xs' with
      | None => Some x
      | Some m => Some (if Qle_bool x m then x else m)
      end
  end.

(** [idxmax] and [idxmin]: the label of the best value, the first one
    when several are equal. *)
Fixpoint arg_best {K} (better : Q -> Q -> bool) (best : K * Q)
  (s : list (K * Q)) : K * Q :=
  match s with
  | [] => best
  | e :: s' => arg_best better (if better (snd e) (snd best) then e else best) s'
  end.

Definition idxmax {K} (s : list (K * Q)) : option (K * Q) :=
  match s with
  | [] => None
  | e :: s' => Some (arg_best (fun a b => Qlt_bool b a) e s')
  end.

Definition idxmin {K} (s : list (K * Q)) : option (K * Q) :=
  match s with
  | [] => None
  | e :: s' => Some (arg_best (fun a b => Qlt_bool a b) e s')
  end.

Definition Zmin_list (xs : list Z) : option Z :=
  match xs with [] => None | x :: xs' => Some (fold_left Z.min xs' x) end.

Definition Zmax_list (xs : list Z) : option Z :=
  match xs with [] => None | x :: xs' => Some (fold_left Z.max xs' x) end.

(** Lines 38-46. *)
Record basic_numbers := {
  total_transactions : nat;
  total_revenue_line : Q;
  average_per_transaction : option Q;
  date_range : option Z * option Z;
  average_daily_revenue : option Q;
  busiest_day : option Q;
  slowest_day : option Q
}.

Definition basics (df : list EnrichedTransaction) : basic_numbers :=
  let per_day := map snd (groupby_sum e_date e_revenue df) in
  {| total_transactions := length df;
     total_revenue_line := total_revenue df;
     average_per_transaction := Qmean (map e_revenue df);
     date_range := (Zmin_list (map e_date df), Zmax_list (map e_date df));
     average_daily_revenue := Qmean per_day;
     busiest_day := Qmax_list per_day;
     slowest_day := Qmin_list per_day |}.

(** Lines 49-54: each category with its amount and its share. *)
Definition category_lines `{SortValues} (df : list EnrichedTransaction)
  : list (string * Q * option Q) :=
  map (fun ca => (fst ca, snd ca,
                  cell_mul (cell_div (Some (snd ca)) (Some (total_rev df)))
                           (Some 100)))
      (by_category df).

(** Lines 63-72. *)
Record hour_lines := {
  peak_hour : Z * Q;
  slowest_hour : Z * Q;
  morning_rush : Q;
  afternoon_line : Q;
  evening_line : Q
}.

(** Lines 75-116. *)
Record weather_lines := {
  temperature_line : printed;
  temperature_block : temperature_finding;
  rainfall_line : printed;
  rainfall_block : rain_finding;
  temperature_range : option Q * option Q;
  average_temperature : option Q;
  rainiest_line : option Q;
  days_with_rain_line : nat * nat
}.

Definition weather_block (days : list DailySummary) : weather_lines :=
  {| temperature_line := format_fixed 3 (correlation_temp days);
     temperature_block := temperature_report days;
     rainfall_line := format_fixed 3 (correlation_rain days);
     rainfall_block := rain_report days;
     temperature_range := (Qmin_list (present ds_temperature days),
                           Qmax_list (present ds_temperature days));
     average_temperature := Qmean (present ds_temperature days);
     rainiest_line := rainiest_day days;
     days_with_rain_line := (days_with_rain days, 181%nat) |}.

Record console_report := {
  basic_lines : basic_numbers;
  categories : list (string * Q * option Q);
  products : list (string * Q);
  hours : hour_lines;
  weather : weather_lines
}.

(** What a run leaves behind: the console report and the two tables
    that are saved. *)
Record outputs := {
  console : console_report;
  combined_data : list EnrichedTransaction;
  daily_summary : list DailySummary
}.

(** What is on the console when [idxmax] raises at line 66: the basic
    numbers, and the category and product sections. *)
Record early_report := {
  early_basics : basic_numbers;
  early_categories : list (string * Q * option Q);
  early_products : list (string * Q)
}.

(** How a run ends: it raises at line 66, with the first sections
    printed and nothing saved, or it completes. *)
Inductive run_result :=
| Raised (printed : early_report)
| Completed (o : outputs).

(** The script from the two tables it reads to how it ends.  On a table
    without rows the sections of lines 38-61 are printed, then [idxmax]
    raises on the empty per-hour series. *)
Definition analyse `{SortValues} (csv : list Transaction)
  (response : list DailyWeather) : run_result :=
  let df := merge_left (prepare csv) response in
  match idxmax (by_hour df), idxmin (by_hour df) with
  | Some peak, Some slowest =>
      Completed
        {| console :=
             {| basic_lines := basics df;
                categories := category_lines df;
                products := top_products df;
                hours := {| peak_hour := peak;
                            slowest_hour := slowest;
                            morning_rush := morning df;
                            afternoon_line := afternoon df;
                            evening_line := evening df |};
                weather := weather_block (daily df) |};
           combined_data := df;
           daily_summary := daily df |}
  | _, _ =>
      Raised {| early_basics := basics df;
                early_categories := category_lines df;
                early_products := top_products df |}
  end.

Definition monday_csv : list Transaction :=
  [ sample_txn 1 151 8 "Coffee" "Latte" 1 4;
    sample_txn 2 152 9 "Tea" "Chai" 2 3 ].

(** * Further properties of the script *)

(** ** The weather table (lines 24-29) *)

(** [pd.DataFrame] from the three arrays of the response: one row per
    position; arrays of different lengths are refused ([None]). *)
Fixpoint weather_frame (time : list Z) (temps rains : list (option Q))
  : option (list DailyWeather) :=
  match time, temps, rains with
  | [], [], [] => Some []
  | d :: time', t :: temps', r :: rains' =>
      option_map (cons {| wdate := d; wtemperature := t; wrain := r |})
                 (weather_frame time' temps' rains')
  | _, _, _ => None
  end.

Lemma weather_frame_build ws :
  weather_frame (map wdate ws) (map wtemperature ws) (map wrain ws) = Some ws.
Proof.
  induction ws as [|[d t r] ws IH]; simpl; [reflexivity|]. now rewrite IH.
Qed.

Lemma weather_frame_some time : forall temps rains ws,
  weather_frame time temps rains = Some ws ->
  map wdate ws = time /\ map wtemperature ws = temps /\ map wrain ws = rains.
Proof.
  induction time as [|d time IH]; intros [|t temps] [|r rains] ws; simpl;
    try discriminate.
  - intros E. injection E as <-. auto.
  - destruct (weather_frame time temps rains) as [ws'|] eqn:W; simpl;
      [|discriminate].
    intros E. injection E as <-. simpl.
    destruct (IH _ _ _ W) as (-> & -> & ->). auto.
Qed.

Lemma weather_frame_lengths time : forall temps rains,
  weather_frame time temps rains <> None <->
  length temps = length time /\ length rains = length time.
Proof.
  induction time as [|d time IH]; intros [|t temps] [|r rains]; simpl;
    try (split; [congruence|intros [? ?]; discriminate]).
  - split; [auto|discriminate].
  - specialize (IH temps rains).
    destruct (weather_frame time temps rains); simpl.
    + split; [intros _|discriminate].
      destruct (proj1 IH) as [E1 E2]; [discriminate|]. now rewrite E1, E2.
    + split; [congruence|]. intros [E1 E2]. exfalso.
      apply (proj2 IH); [split; congruence|reflexivity].
Qed.

(** X1: the weather table is built exactly when the three arrays have
    one length, and it is then the one table whose columns are the
    three arrays. *)
Theorem weather_frame_columns time temps rains :
  (forall ws, weather_frame time temps rains = Some ws <->
     map wdate ws = time /\ map wtemperature ws = temps /\ map wrain ws = rains) /\
  (weather_frame time temps rains = None <->
     ~ (length temps = length time /\ length rains = length time)).
Proof.
  split.
  - intros ws. split; [apply weather_frame_some|].
    intros (<- & <- & <-). apply weather_frame_build.
  - rewrite <- weather_frame_lengths.
    destruct (weather_frame time temps rains); split; try congruence.
    intros N. exfalso. apply N. discriminate.
Qed.

Example weather_frame_short :
  weather_frame [151; 152]%Z [Some 68; Some 70] [Some 0] = None.
Proof. reflexivity. Qed.

(** ** Preparation and join (lines 5-31) *)

Lemma prepare_other_store before t after :
  store_location t <> store ->
  prepare (before ++ t :: after) = prepare (before ++ after).
Proof.
  intros N. unfold prepare. rewrite !filter_app. simpl.
  now rewrite (proj2 (String.eqb_neq _ _) N).
Qed.

(** X2: a transaction of another store changes nothing: the run with it
    and the run without it end alike. *)
Theorem other_stores_ignored `{SortValues} before t after response :
  store_location t <> store ->
  analyse (before ++ t :: after) response = analyse (before ++ after) response.
Proof.
  intros N. unfold analyse. now rewrite (@prepare_other_store before t after N).
Qed.

Definition uptown_sale : Transaction :=
  {| transaction_id := 9; store_location := "Astoria"; transaction_date := 151;
     transaction_time := {| hh := 7; mm := 30; ss := 0 |};
     transaction_qty := 3; unit_price := 4;
     product_category := "Tea"; product_detail := "Chai" |}.

Lemma other_stores_ignored_witness :
  store_location uptown_sale <> store /\
  analyse ([sample_txn 1 151 8 "Coffee" "Latte" 1 4] ++ uptown_sale :: []) june_weather =
  analyse ([sample_txn 1 151 8 "Coffee" "Latte" 1 4] ++ []) june_weather.
Proof.
  assert (N : store_location uptown_sale <> store) by discriminate.
  split; [exact N|]. exact (@other_stores_ignored _ _ uptown_sale _ june_weather N).
Defined.

Lemma merge_left_In rows weather e :
  In e (merge_left rows weather) -> In (sale e) rows /\ weather_of_date weather e.
Proof.
  unfold merge_left. intros I. apply in_flat_map in I.
  destruct I as [r [Ir Ie]]. destruct (merge_row_weather _ _ _ Ie) as [<- W].
  now split.
Qed.

(** X3: every row of the joined table is a transaction of the file, of
    the one store, and carries that transaction's date, the hour of its
    time and the revenue quantity times unit price. *)
Theorem enriched_rows_derived csv response e :
  In e (merge_left (prepare csv) response) ->
  In (txn (sale e)) csv /\
  store_location (txn (sale e)) = store /\
  e_date e = transaction_date (txn (sale e)) /\
  e_hour e = hh (transaction_time (txn (sale e))) /\
  e_revenue e = inject_Z (transaction_qty (txn (sale e))) * unit_price (txn (sale e)).
Proof.
  intros I. apply merge_left_In in I. destruct I as [I _].
  unfold prepare in I. apply in_map_iff in I. destruct I as [t [E I]].
  apply filter_In in I. destruct I as [I S]. apply String.eqb_eq in S.
  unfold e_date, e_hour, e_revenue. rewrite <- E. simpl. auto.
Qed.

Lemma enriched_rows_derived_witness :
  let e := nth 0 (merge_left (prepare monday_csv) june_weather)
               (without_weather (derive uptown_sale)) in
  In e (merge_left (prepare monday_csv) june_weather) /\
  e_revenue e = inject_Z (transaction_qty (txn (sale e))) * unit_price (txn (sale e)).
Proof.
  intros e.
  assert (I : In e (merge_left (prepare monday_csv) june_weather))
    by (left; reflexivity).
  split; [exact I|]. apply (enriched_rows_derived _ _ _ I).
Defined.

(** The number of times a row is in the joined table. *)
Definition copies (weather : list DailyWeather) (r : SalesRow) : nat :=
  Nat.max 1 (length (weather_on (date r) weather)).

Lemma merge_left_sales rows weather :
  map sale (merge_left rows weather) =
  flat_map (fun r => repeat r (copies weather r)) rows.
Proof.
  unfold merge_left. induction rows as [|r rows IH]; simpl; [reflexivity|].
  now rewrite map_app, IH, merge_row_sale.
Qed.

Lemma Qsum_repeat (x : Q) n : Qsum (repeat x n) == inject_Z (Z.of_nat n) * x.
Proof.
  induction n as [|n IH]; [simpl; ring|].
  cbn [repeat Qsum fold_right]. fold (Qsum (repeat x n)). rewrite IH.
  rewrite Nat2Z.inj_succ, <- Z.add_1_r, inject_Z_plus. ring.
Qed.

(** X4: the joined table counts the revenue of each row once per weather
    row of its date (once when there is none); so with distinct weather
    dates the total revenue and the number of rows are those of the
    sales, and a duplicated weather date counts its sales again. *)
Theorem join_revenue rows weather :
  total_revenue (merge_left rows weather) ==
    Qsum (map (fun r => inject_Z (Z.of_nat (copies weather r)) * revenue r) rows) /\
  (NoDup (map wdate weather) ->
     total_revenue (merge_left rows weather) == Qsum (map revenue rows) /\
     length (merge_left rows weather) = length rows).
Proof.
  assert (G : total_revenue (merge_left rows weather) ==
    Qsum (map (fun r => inject_Z (Z.of_nat (copies weather r)) * revenue r) rows)).
  { unfold total_revenue, e_revenue. rewrite <- (map_map sale revenue).
    rewrite merge_left_sales. induction rows as [|r rows IH]; simpl; [reflexivity|].
    rewrite map_app, Qsum_app, IH, map_repeat, Qsum_repeat. reflexivity. }
  split; [exact G|]. intros N.
  assert (C : forall r, copies weather r = 1%nat).
  { intros r. unfold copies. pose proof (weather_on_unique (date r) weather N). lia. }
  split.
  - rewrite G. clear G. induction rows as [|r rows IH]; simpl; [reflexivity|].
    rewrite IH, C. simpl. ring.
  - rewrite <- (length_map sale), merge_left_sales.
    clear G. induction rows as [|r rows IH]; simpl; [reflexivity|].
    rewrite C. simpl. now rewrite IH.
Qed.

Lemma join_revenue_witness :
  NoDup (map wdate june_weather) /\
  total_revenue (merge_left june_sales june_weather) == Qsum (map revenue june_sales) /\
  Qred (total_revenue (merge_left june_sales doubled_weather)) = 24.
Proof.
  assert (N : NoDup (map wdate june_weather))
    by (repeat constructor; simpl; intuition discriminate).
  split; [exact N|]. split; [|reflexivity].
  exact (proj1 (proj2 (join_revenue june_sales june_weather) N)).
Defined.

(** ** The daily table (lines 76-82) *)

Section GroupSizes.
Context {K A : Type} `{KeyOrder K}.

Definition group_sizes (gs : list (K * list A)) : nat :=
  list_sum (map (fun kg => length (snd kg)) gs).

Lemma upsert_sizes k a (gs : list (K * list A)) :
  group_sizes (upsert k a gs) = S (group_sizes gs).
Proof.
  unfold group_sizes. induction gs as [|[k' g] rest IH]; simpl; [reflexivity|].
  destruct (kcmp k k'); simpl.
  - rewrite length_app. simpl. lia.
  - reflexivity.
  - rewrite IH. lia.
Qed.

Lemma groupby_sizes (key : A -> K) rows :
  group_sizes (groupby key rows) = length rows.
Proof.
  induction rows as [|r rows IH] using rev_ind; [reflexivity|].
  rewrite groupby_snoc, upsert_sizes, IH, length_app. simpl. lia.
Qed.

Lemma groupby_nil (key : A -> K) rows : groupby key rows = [] <-> rows = [].
Proof.
  split; [|now intros ->]. intros E.
  pose proof (groupby_sizes key rows) as S. rewrite E in S.
  destruct rows; [reflexivity|discriminate].
Qed.
End GroupSizes.

Lemma daily_nil df : daily df = [] <-> df = [].
Proof.
  unfold daily. rewrite <- (groupby_nil e_date df).
  destruct (groupby e_date df); simpl; split; congruence.
Qed.

(** X5: the daily table has one row per date of the joined table, in
    ascending order of date; its revenues add up to the total revenue
    and its transaction counts to the number of rows; it is empty only
    when the joined table is. *)
Theorem daily_covers_table df :
  StronglySorted Z.lt (map ds_date (daily df)) /\
  (forall d, In d (map ds_date (daily df)) <-> In d (map e_date df)) /\
  length (daily df) = length (nodup Z.eq_dec (map e_date df)) /\
  Qsum (map ds_revenue (daily df)) == total_revenue df /\
  list_sum (map ds_transactions (daily df)) = length df /\
  (daily df = [] <-> df = []).
Proof.
  split; [|split; [|split; [|split; [|split]]]].
  - rewrite daily_dates. exact (groupby_sorted e_date df).
  - intros d. rewrite daily_dates. apply groupby_keys.
  - unfold daily. rewrite length_map. apply (groupby_length e_date Z.eq_dec).
  - rewrite <- (groupby_sum_total e_date e_revenue df : _ == total_revenue df).
    unfold daily, groupby_sum, agg_sum. rewrite !map_map. reflexivity.
  - unfold daily. rewrite map_map. simpl. exact (groupby_sizes e_date df).
  - apply daily_nil.
Qed.

Lemma first_valid_same (c : option Q) cells :
  cells <> [] -> Forall (fun x => x = c) cells -> first_valid cells = c.
Proof.
  intros N F. destruct F as [|x cells E F]; [congruence|]. subst x. clear N.
  destruct c as [v|]; simpl; [reflexivity|].
  induction F as [|x cells E F IH]; simpl; [reflexivity|]. now subst x.
Qed.

Lemma wdate_unique weather w w' :
  NoDup (map wdate weather) -> In w weather -> In w' weather ->
  wdate w = wdate w' -> w = w'.
Proof.
  induction weather as [|x ws IH]; simpl; intros N I I' E; [tauto|].
  inversion N as [|? ? N1 N2]; subst.
  destruct I as [<-|I]; destruct I' as [<-|I']; auto.
  - exfalso. apply N1. rewrite E. now apply in_map.
  - exfalso. apply N1. rewrite <- E. now apply in_map.
Qed.

Lemma daily_group df s :
  In s (daily df) ->
  rows_on (ds_date s) df <> [] /\
  ds_temperature s = first_valid (map temperature (rows_on (ds_date s) df)) /\
  ds_rain s = first_valid (map rain (rows_on (ds_date s) df)).
Proof.
  intros I. split.
  - assert (J : In (ds_date s) (map e_date df)).
    { apply (groupby_keys e_date). rewrite <- daily_dates. now apply in_map. }
    apply in_map_iff in J. destruct J as [e [E J]].
    intros N. assert (X : In e (rows_on (ds_date s) df)).
    { apply filter_In. split; [exact J|]. now apply Z.eqb_eq. }
    now rewrite N in X.
  - rewrite (daily_row df s I) at 1 3. auto.
Qed.

(** X6: with distinct weather dates, a day of the daily table carries
    the temperature and the rain of the weather row of its date; a day
    whose date has no weather row carries nulls. *)
Theorem daily_weather_of_date rows weather s :
  NoDup (map wdate weather) ->
  In s (daily (merge_left rows weather)) ->
  (forall w, In w weather -> wdate w = ds_date s ->
     ds_temperature s = wtemperature w /\ ds_rain s = wrain w) /\
  ((forall w, In w weather -> wdate w <> ds_date s) ->
     ds_temperature s = None /\ ds_rain s = None).
Proof.
  intros N I. destruct (daily_group _ s I) as (G & -> & ->).
  set (g := rows_on (ds_date s) (merge_left rows weather)) in *.
  assert (W : forall e, In e g -> e_date e = ds_date s /\ weather_of_date weather e).
  { intros e J. apply filter_In in J. destruct J as [J E].
    apply Z.eqb_eq in E. split; [exact E|]. now apply merge_left_In in J. }
  split.
  - intros w Iw Ew.
    assert (T : forall e, In e g -> temperature e = wtemperature w /\ rain e = wrain w).
    { intros e J. destruct (W e J) as [E [(w' & I' & E' & Et & Er)|(A & _)]].
      - assert (w' = w) by (apply (@wdate_unique weather w' w N I' Iw); congruence).
        subst w'. auto.
      - exfalso. apply (A w Iw). congruence. }
    split; apply first_valid_same;
      try (intros Z; apply map_eq_nil in Z; contradiction);
      apply Forall_forall; intros c J; apply in_map_iff in J;
      destruct J as [e [<- J]]; now apply T.
  - intros A.
    assert (T : forall e, In e g -> temperature e = None /\ rain e = None).
    { intros e J. destruct (W e J) as [E [(w' & I' & E' & _)|(_ & Et & Er)]]; auto.
      exfalso. apply (A w' I'). congruence. }
    split; apply first_valid_same;
      try (intros Z; apply map_eq_nil in Z; contradiction);
      apply Forall_forall; intros c J; apply in_map_iff in J;
      destruct J as [e [<- J]]; now apply T.
Qed.

Lemma daily_weather_of_date_witness :
  let s := nth 0 (daily (merge_left june_sales june_weather)) (day 0 0 None None) in
  NoDup (map wdate june_weather) /\
  In s (daily (merge_left june_sales june_weather)) /\
  ds_temperature s = Some 68.
Proof.
  intros s.
  assert (N : NoDup (map wdate june_weather))
    by (repeat constructor; simpl; intuition discriminate).
  assert (I : In s (daily (merge_left june_sales june_weather)))
    by (left; reflexivity).
  split; [exact N|]. split; [exact I|].
  apply (proj1 (daily_weather_of_date june_sales june_weather s N I)
               {| wdate := 151; wtemperature := Some 68; wrain := Some 0 |});
    [left|]; reflexivity.
Defined.

(** ** Runs without weather, runs without sales *)

Lemma first_valid_none cells :
  Forall (fun x => x = None) cells -> first_valid cells = None.
Proof. induction 1 as [|x cells E F IH]; simpl; [reflexivity|]. now subst x. Qed.

Lemma paired_none col days :
  Forall (fun d => col d = None) days -> paired col days = [].
Proof.
  unfold paired. induction 1 as [|d days E F IH]; simpl; [reflexivity|].
  now rewrite E.
Qed.

Lemma present_none col days :
  Forall (fun d => col d = None) days -> present col days = [].
Proof.
  unfold present. induction 1 as [|d days E F IH]; simpl; [reflexivity|].
  now rewrite E.
Qed.

Lemma daily_all_null df :
  Forall (fun e => temperature e = None /\ rain e = None) df ->
  Forall (fun s => ds_temperature s = None /\ ds_rain s = None) (daily df).
Proof.
  intros F. apply Forall_forall. intros s I.
  destruct (daily_group df s I) as (_ & -> & ->).
  rewrite Forall_forall in F.
  split; apply first_valid_none; apply Forall_forall; intros c J;
    apply in_map_iff in J; destruct J as [e [<- J]];
    apply filter_In in J; now apply F.
Qed.

(** X7: when no weather row has the date of any sale, every day of the
    daily table has null weather; both coefficients are NaN and are
    printed as "nan", the temperature is classified as weak and the
    rain as positive, and the weather figures are NaN, with no day of
    rain. *)
Theorem no_weather_for_sales rows weather :
  (forall r w, In r rows -> In w weather -> wdate w <> date r) ->
  let days := daily (merge_left rows weather) in
  Forall (fun s => ds_temperature s = None /\ ds_rain s = None) days /\
  temperature_line (weather_block days) = Word "nan" /\
  temperature_block (weather_block days) = WeakTemperature /\
  rainfall_line (weather_block days) = Word "nan" /\
  rainfall_block (weather_block days) = PositiveRain /\
  temperature_range (weather_block days) = (None, None) /\
  average_temperature (weather_block days) = None /\
  rainiest_line (weather_block days) = None /\
  fst (days_with_rain_line (weather_block days)) = 0%nat.
Proof.
  intros H days.
  assert (F : Forall (fun s => ds_temperature s = None /\ ds_rain s = None) days).
  { apply daily_all_null. apply Forall_forall. intros e I.
    destruct (merge_left_In _ _ _ I) as [Is [(w & Iw & Ew & _)|(_ & Et & Er)]]; auto.
    exfalso. apply (H (sale e) w Is Iw). exact Ew. }
  assert (FT : Forall (fun s => ds_temperature s = None) days)
    by (eapply Forall_impl; [|exact F]; simpl; tauto).
  assert (FR : Forall (fun s => ds_rain s = None) days)
    by (eapply Forall_impl; [|exact F]; simpl; tauto).
  assert (CT : correlation_temp days = None)
    by (unfold correlation_temp; now rewrite (paired_none _ FT)).
  assert (CR : correlation_rain days = None)
    by (unfold correlation_rain; now rewrite (paired_none _ FR)).
  split; [exact F|]. unfold weather_block. simpl.
  rewrite CT, CR, (temperature_report_nan _ CT), (rain_report_nan _ CR).
  unfold rainiest_day. rewrite (present_none _ FT), (present_none _ FR).
  repeat split. unfold days_with_rain.
  rewrite filter_none; [reflexivity|]. intros s I.
  rewrite Forall_forall in FR. now rewrite (FR s I).
Qed.

Lemma no_weather_for_sales_witness :
  (forall r w, In r june_sales -> In w (@nil DailyWeather) -> wdate w <> date r) /\
  temperature_line (weather_block (daily (merge_left june_sales []))) = Word "nan".
Proof.
  assert (H : forall r w, In r june_sales -> In w (@nil DailyWeather) ->
                          wdate w <> date r) by (intros r w _ []).
  split; [exact H|]. exact (proj1 (proj2 (no_weather_for_sales june_sales [] H))).
Defined.

Lemma sort_values_desc_nil `{SortValues} {K} : sort_values_desc (@nil (K * Q)) = [].
Proof. apply Permutation_nil, sort_values_desc_perm. Qed.

Lemma daily_length_le df : (length (daily df) <= length df)%nat.
Proof.
  unfold daily. rewrite length_map. rewrite (groupby_length e_date Z.eq_dec).
  rewrite <- (length_map e_date df). apply NoDup_incl_length.
  - apply NoDup_nodup.
  - intros x I. now apply nodup_In in I.
Qed.

Lemma merge_left_nil rows weather : merge_left rows weather = [] <-> rows = [].
Proof.
  split; [|now intros ->]. intros E.
  pose proof (merge_left_length rows weather) as L. rewrite E in L.
  destruct rows; [reflexivity|simpl in L; lia].
Qed.

Lemma by_hour_nil df : by_hour df = [] <-> df = [].
Proof.
  unfold by_hour, groupby_sum, agg_sum. rewrite <- (groupby_nil e_hour df).
  destruct (groupby e_hour df); simpl; split; congruence.
Qed.

(** X8: the run raises at line 66 exactly when the file has no
    transaction of the store.  It has then printed the basic numbers of
    an empty table, 0 transactions and 0 revenue with NaN for every
    average and extreme, and no category and no product line, and has
    saved nothing.  Otherwise it completes, and the tables it saves
    have rows. *)
Theorem run_raises_without_sales `{SortValues} csv response :
  ((exists printed, analyse csv response = Raised printed) <->
     forall t, In t csv -> store_location t <> store) /\
  (forall printed, analyse csv response = Raised printed ->
     total_transactions (early_basics printed) = 0%nat /\
     total_revenue_line (early_basics printed) = 0 /\
     average_per_transaction (early_basics printed) = None /\
     date_range (early_basics printed) = (None, None) /\
     average_daily_revenue (early_basics printed) = None /\
     busiest_day (early_basics printed) = None /\
     slowest_day (early_basics printed) = None /\
     early_categories printed = [] /\
     early_products printed = []) /\
  (forall o, analyse csv response = Completed o ->
     combined_data o <> [] /\ daily_summary o <> [] /\
     length (daily_summary o) <= length (combined_data o))%nat.
Proof.
  assert (P : prepare csv = [] <-> forall t, In t csv -> store_location t <> store).
  { unfold prepare. split.
    - intros E t I S. apply map_eq_nil in E.
      assert (J : In t (filter (fun t => String.eqb (store_location t) store) csv))
        by (apply filter_In; split; [exact I|now apply String.eqb_eq]).
      now rewrite E in J.
    - intros N. rewrite filter_none; [reflexivity|].
      intros t I. apply String.eqb_neq. now apply N. }
  unfold analyse. set (df := merge_left (prepare csv) response).
  assert (D : df = [] <-> prepare csv = []) by apply merge_left_nil.
  pose proof (by_hour_nil df) as B.
  destruct (by_hour df) as [|e s] eqn:E; simpl.
  - assert (Z : df = []) by now apply B.
    split; [split; [intros _; now apply P, D|eauto]|].
    split; [|discriminate].
    intros printed Ep. injection Ep as <-. rewrite Z. simpl.
    assert (C : category_lines (@nil EnrichedTransaction) = []).
    { unfold category_lines, by_category, with_category, groupby_sum. simpl.
      now rewrite sort_values_desc_nil. }
    assert (T : top_products (@nil EnrichedTransaction) = []).
    { unfold top_products, groupby_sum. simpl. now rewrite sort_values_desc_nil. }
    rewrite C, T. repeat split.
  - assert (N : df <> []) by (intros Z; apply B in Z; discriminate).
    split.
    + split; [intros (printed & Ep); discriminate|].
      intros M. apply P, D in M. contradiction.
    + split; [discriminate|]. intros o Eo. injection Eo as <-. simpl.
      split; [exact N|]. split; [intros Z; apply daily_nil in Z; contradiction|].
      apply daily_length_le.
Qed.

Lemma run_raises_without_sales_witness :
  (forall t, In t [uptown_sale] -> store_location t <> store) /\
  exists printed, analyse [uptown_sale] june_weather = Raised printed.
Proof.
  assert (N : forall t, In t [uptown_sale] -> store_location t <> store).
  { intros t [<-|[]]. discriminate. }
  split; [exact N|].
  exact (proj2 (proj1 (run_raises_without_sales [uptown_sale] june_weather)) N).
Defined.

(** ** Peak and slowest hour (lines 66-69) *)

Section ArgBest.
Context {K : Type}.
Variable better : Q -> Q -> bool.
Hypothesis better_trans : forall a b c,
  better a b = true -> better b c = true -> better a c = true.
Hypothesis better_over : forall a b c,
  better a b = true -> better c b = false -> better a c = true.

(** The entry that is found beats every entry before it and is beaten
    by no entry after it. *)
Definition first_best (s : list (K * Q)) (r : K * Q) : Prop :=
  exists before after,
    s = before ++ r :: after /\
    Forall (fun e => better (snd r) (snd e) = true) before /\
    Forall (fun e => better (snd e) (snd r) = false) after.

Lemma arg_best_scan (s : list (K * Q)) :
  forall (pre : list (K * Q)) (best : K * Q) (mid : list (K * Q)),
  Forall (fun e => better (snd best) (snd e) = true) pre ->
  Forall (fun e => better (snd e) (snd best) = false) mid ->
  exists before after,
    pre ++ best :: mid ++ s = before ++ arg_best better best s :: after /\
    Forall (fun e => better (snd (arg_best better best s)) (snd e) = true) before /\
    Forall (fun e => better (snd e) (snd (arg_best better best s)) = false) after.
Proof.
  induction s as [|e s IH]; intros pre best mid P M; simpl.
  - exists pre, mid. rewrite app_nil_r. auto.
  - destruct (better (snd e) (snd best)) eqn:B.
    + destruct (IH (pre ++ best :: mid) e (@nil (K * Q)))
        as (before & after & E & F1 & F2).
      * apply Forall_app. split; [|constructor; [exact B|]].
        -- eapply Forall_impl; [|exact P]. simpl. intros x Hx.
           now apply better_trans with (snd best).
        -- eapply Forall_impl; [|exact M]. simpl. intros x Hx.
           now apply better_over with (snd best).
      * constructor.
      * exists before, after. split; [|auto]. rewrite <- E. simpl.
        now rewrite <- app_assoc.
    + destruct (IH pre best (mid ++ [e])) as (before & after & E & F1 & F2).
      * exact P.
      * apply Forall_app. split; [exact M|]. now repeat constructor.
      * exists before, after. split; [|auto]. rewrite <- E.
        now rewrite <- app_assoc.
Qed.

Lemma arg_best_first e s : first_best (e :: s) (arg_best better e s).
Proof.
  destruct (@arg_best_scan s [] e [] (Forall_nil _) (Forall_nil _))
    as (before & after & E & F1 & F2).
  exists before, after. auto.
Qed.
End ArgBest.

Lemma Qlt_bool_iff a b : Qlt_bool a b = true <-> a < b.
Proof.
  unfold Qlt_bool. rewrite negb_true_iff. split.
  - intros E. apply Qnot_le_lt. intros L. apply Qle_bool_iff in L. congruence.
  - intros L. destruct (Qle_bool b a) eqn:E; [|reflexivity].
    apply Qle_bool_iff in E. exfalso. apply (Qlt_irrefl a).
    now apply Qlt_le_trans with b.
Qed.

Lemma Qlt_bool_false a b : Qlt_bool a b = false <-> b <= a.
Proof.
  unfold Qlt_bool. rewrite negb_false_iff. apply Qle_bool_iff.
Qed.

(** X9: the peak hour is an hour of the per-hour table whose revenue no
    hour exceeds, the earliest such hour; the slowest hour is the
    earliest hour of least revenue; both carry the revenue of their
    hour, and there is no peak only when the table has no rows. *)
Theorem peak_and_slowest_hour df :
  (forall peak, idxmax (by_hour df) = Some peak ->
     exists before after, by_hour df = before ++ peak :: after /\
       Forall (fun e => snd e < snd peak) before /\
       Forall (fun e => snd e <= snd peak) after) /\
  (forall slowest, idxmin (by_hour df) = Some slowest ->
     exists before after, by_hour df = before ++ slowest :: after /\
       Forall (fun e => snd slowest < snd e) before /\
       Forall (fun e => snd slowest <= snd e) after) /\
  (forall h v, idxmax (by_hour df) = Some (h, v) \/ idxmin (by_hour df) = Some (h, v) ->
     v = Qsum (map e_revenue (rows_of e_hour h df))) /\
  (idxmax (by_hour df) = None <-> df = []) /\
  (idxmin (by_hour df) = None <-> df = []).
Proof.
  assert (Mx : forall peak, idxmax (by_hour df) = Some peak ->
     exists before after, by_hour df = before ++ peak :: after /\
       Forall (fun e => snd e < snd peak) before /\
       Forall (fun e => snd e <= snd peak) after).
  { intros peak. unfold idxmax. destruct (by_hour df) as [|e s]; [discriminate|].
    intros E. injection E as <-.
    destruct (@arg_best_first Z (fun a b => Qlt_bool b a)) with (e := e) (s := s)
      as (before & after & E & F1 & F2).
    - intros a b c. rewrite !Qlt_bool_iff. intros; now apply Qlt_trans with b.
    - intros a b c. rewrite Qlt_bool_iff, Qlt_bool_false, Qlt_bool_iff.
      intros; now apply Qle_lt_trans with b.
    - exists before, after. split; [exact E|]. split.
      + eapply Forall_impl; [|exact F1]. intros x. apply Qlt_bool_iff.
      + eapply Forall_impl; [|exact F2]. intros x. apply Qlt_bool_false. }
  assert (Mn : forall slowest, idxmin (by_hour df) = Some slowest ->
     exists before after, by_hour df = before ++ slowest :: after /\
       Forall (fun e => snd slowest < snd e) before /\
       Forall (fun e => snd slowest <= snd e) after).
  { intros slowest. unfold idxmin. destruct (by_hour df) as [|e s]; [discriminate|].
    intros E. injection E as <-.
    destruct (@arg_best_first Z (fun a b => Qlt_bool a b)) with (e := e) (s := s)
      as (before & after & E & F1 & F2).
    - intros a b c. rewrite !Qlt_bool_iff. intros; now apply Qlt_trans with b.
    - intros a b c. rewrite Qlt_bool_iff, Qlt_bool_false, Qlt_bool_iff.
      intros; now apply Qlt_le_trans with b.
    - exists before, after. split; [exact E|]. split.
      + eapply Forall_impl; [|exact F1]. intros x. apply Qlt_bool_iff.
      + eapply Forall_impl; [|exact F2]. intros x. apply Qlt_bool_false. }
  split; [exact Mx|]. split; [exact Mn|]. split; [|split].
  - intros h v H.
    assert (I : In (h, v) (by_hour df)).
    { destruct H as [H|H]; [apply Mx in H|apply Mn in H];
        destruct H as (before & after & -> & _); apply in_or_app; right; now left. }
    unfold by_hour, groupby_sum, agg_sum in I. apply in_map_iff in I.
    destruct I as [[k g] [E I]]. simpl in E. injection E as Ek Ev. subst h v.
    now rewrite (groupby_In e_hour df k g I).
  - rewrite <- by_hour_nil. unfold idxmax.
    destruct (by_hour df); split; congruence.
  - rewrite <- by_hour_nil. unfold idxmin.
    destruct (by_hour df); split; congruence.
Qed.

Lemma peak_and_slowest_hour_witness :
  idxmax (by_hour tied_sales) = Some (9%Z, Qsum (map e_revenue tied_sales)) /\
  Qsum (map e_revenue tied_sales) = Qsum (map e_revenue (rows_of e_hour 9%Z tied_sales)).
Proof.
  assert (E : idxmax (by_hour tied_sales) = Some (9%Z, Qsum (map e_revenue tied_sales)))
    by reflexivity.
  split; [exact E|].
  exact (proj1 (proj2 (proj2 (peak_and_slowest_hour tied_sales))) _ _ (or_introl E)).
Defined.

(** ** The time buckets as the code cuts them (lines 70-72) *)

(** Revenue of the rows whose hour is [a] or later. *)
Definition revenue_from (a : Z) (df : list EnrichedTransaction) : Q :=
  Qsum (map e_revenue (filter (fun e => (a <=? e_hour e)%Z) df)).

Definition distinct_hours (df : list EnrichedTransaction) : nat :=
  length (nodup Z.eq_dec (map e_hour df)).

Lemma by_hour_length df : length (by_hour df) = distinct_hours df.
Proof.
  unfold by_hour, groupby_sum, agg_sum, distinct_hours. rewrite length_map.
  apply (groupby_length e_hour Z.eq_dec).
Qed.

Lemma islice_short {A} a b (s : list A) : (length s <= a)%nat -> islice a b s = [].
Proof.
  intros L. unfold islice. rewrite skipn_all2 by exact L. apply firstn_nil.
Qed.

(** X10: the three bucket sums are taken from consecutive positions of
    the per-hour table and together leave out its first seven entries;
    so with sales in at most 7 different hours all three are 0, with at
    most 12 the afternoon and the evening are 0, and with at most 18
    the evening is 0, in whatever hours the sales were made. *)
Theorem buckets_cut_by_position df :
  morning df + afternoon df + evening df ==
    total_revenue df - Qsum (map snd (firstn 7 (by_hour df))) /\
  ((distinct_hours df <= 7)%nat -> morning df == 0) /\
  ((distinct_hours df <= 12)%nat -> afternoon df == 0) /\
  ((distinct_hours df <= 18)%nat -> evening df == 0).
Proof.
  split; [apply buckets_by_position|].
  rewrite <- by_hour_length. unfold morning, afternoon, evening, islice_from.
  split; [|split]; intros L.
  - now rewrite islice_short.
  - now rewrite islice_short.
  - now rewrite skipn_all2.
Qed.

(** Sales in the hours 8, 9 and 19 only. *)
Definition three_hours : list EnrichedTransaction :=
  [ sample_row 1 0 8 "Coffee" "Latte" 1 4 None None;
    sample_row 2 0 9 "Coffee" "Mocha" 1 5 None None;
    sample_row 3 0 19 "Tea" "Chai" 1 3 None None ].

Lemma buckets_cut_by_position_witness :
  (distinct_hours three_hours <= 7)%nat /\ morning three_hours == 0 /\
  Qred (revenue_in_hours 7 12 three_hours) = 9.
Proof.
  assert (L : (distinct_hours three_hours <= 7)%nat) by (vm_compute; lia).
  split; [exact L|]. split; [|reflexivity].
  exact (proj1 (proj2 (buckets_cut_by_position three_hours)) L).
Defined.

Lemma islice_dense_from {V} a b o k (s : list (Z * V)) :
  (a <= b)%nat -> dense_from o k s ->
  islice a b s = filter (fun e => label_from (o + a) e && label_below (o + b) e) s.
Proof.
  intros L D. unfold islice.
  rewrite (firstn_dense (b - a) (skipn_dense_from a D)).
  rewrite (skipn_dense a D).
  replace (o + a + (b - a))%nat with (o + b)%nat by lia.
  apply filter_both.
Qed.

(** X11: when the hours with sales are o, o+1, ..., with none skipped,
    the sum printed as morning is the revenue of the hours
    [o+7, o+12), the afternoon that of [o+12, o+18), and the evening
    that of the hours from o+18 on: the buckets begin 7, 12 and 18
    hours after the first hour with sales. *)
Theorem buckets_shift_with_first_hour o k df :
  dense_from o k (by_hour df) ->
  morning df == revenue_in_hours (Z.of_nat (o + 7)) (Z.of_nat (o + 12)) df /\
  afternoon df == revenue_in_hours (Z.of_nat (o + 12)) (Z.of_nat (o + 18)) df /\
  evening df == revenue_from (Z.of_nat (o + 18)) df.
Proof.
  intros D. unfold morning, afternoon, evening, islice_from.
  rewrite (@islice_dense_from _ 7 12 o k _) by (auto; lia).
  rewrite (@islice_dense_from _ 12 18 o k _) by (auto; lia).
  rewrite (skipn_dense 18 D).
  split; [|split].
  - exact (groupby_sum_where e_hour e_revenue
             (fun h => (Z.of_nat (o + 7) <=? h)%Z && (h <? Z.of_nat (o + 12))%Z) df).
  - exact (groupby_sum_where e_hour e_revenue
             (fun h => (Z.of_nat (o + 12) <=? h)%Z && (h <? Z.of_nat (o + 18))%Z) df).
  - exact (groupby_sum_where e_hour e_revenue
             (fun h => (Z.of_nat (o + 18) <=? h)%Z) df).
Qed.

(** Sales in each of the hours 6 .. 20, one unit of revenue per hour of
    the clock. *)
Definition shop_hours : list EnrichedTransaction :=
  map (fun h => sample_row h 0 h "Coffee" "Latte" 1 (inject_Z h) None None)
      [6; 7; 8; 9; 10; 11; 12; 13; 14; 15; 16; 17; 18; 19; 20]%Z.

Lemma buckets_shift_with_first_hour_witness :
  dense_from 6 15 (by_hour shop_hours) /\
  morning shop_hours == revenue_in_hours 13 18 shop_hours /\
  Qred (morning shop_hours) = 75 /\
  Qred (revenue_in_hours 7 12 shop_hours) = 45 /\
  Qred (evening shop_hours) = 0.
Proof.
  assert (D : dense_from 6 15 (by_hour shop_hours)) by reflexivity.
  split; [exact D|]. split; [|repeat split].
  exact (proj1 (@buckets_shift_with_first_hour 6 15 shop_hours D)).
Defined.

(** ** Categories and products (lines 49-60) *)

(** The shares that are numbers, in the order of the lines. *)
Definition shares `{SortValues} (df : list EnrichedTransaction) : list Q :=
  flat_map (fun l => match snd l with Some p => [p] | None => [] end)
           (category_lines df).

Lemma Qsum_scaled (t : Q) xs :
  ~ t == 0 -> Qsum (map (fun x => x / t * 100) xs) == Qsum xs / t * 100.
Proof.
  intros N. induction xs as [|x xs IH]; simpl; [field; exact N|].
  rewrite IH. field. exact N.
Qed.

Lemma map_pair_id {A B} (l : list (A * B)) :
  map (fun x => (fst x, snd x)) l = l.
Proof.
  induction l as [|[a b] l IH]; simpl; [reflexivity|]. now rewrite IH.
Qed.

Lemma shares_of_lines (g : string * Q -> option Q) (h : string * Q -> Q) l :
  (forall ca, g ca = Some (h ca)) ->
  flat_map (fun x : string * Q * option Q =>
              match snd x with Some p => [p] | None => [] end)
           (map (fun ca => (fst ca, snd ca, g ca)) l) = map h l.
Proof.
  intros G. induction l as [|ca l IH]; simpl; [reflexivity|].
  now rewrite G, IH.
Qed.

Lemma by_category_entries `{SortValues} df c v :
  In (c, v) (by_category df) ->
  In c (map e_category (with_category df)) /\
  v = Qsum (map e_revenue (rows_of e_category c df)).
Proof.
  unfold by_category. intros I.
  apply (Permutation_in _ (Permutation_sym (sort_values_desc_perm _))) in I.
  unfold groupby_sum, agg_sum in I. apply in_map_iff in I.
  destruct I as [[k g] [E I]]. simpl in E. injection E as Ek Ev. subst c v.
  assert (J : In k (map e_category (with_category df))).
  { apply (groupby_keys e_category). change k with (fst (k, g)). now apply in_map. }
  split; [exact J|].
  rewrite (groupby_In e_category (with_category df) k g I).
  unfold with_category. rewrite rows_of_present; [reflexivity|].
  now apply (present_key e_category k df).
Qed.

(** X12: the category lines list each category of the table once
    (cells read as missing are no category), with the sum of its
    revenue, largest first; when the total is not zero every line has
    a share, the share is amount / total * 100, and the shares add up
    to 100; when the total is zero no line has a share. *)
Theorem category_lines_shares `{SortValues} df :
  map (fun l => fst l) (category_lines df) = by_category df /\
  NoDup (map fst (by_category df)) /\
  (forall c, In c (map fst (by_category df)) <->
     In c (map e_category (with_category df))) /\
  (forall c v, In (c, v) (by_category df) ->
     v = Qsum (map e_revenue (rows_of e_category c df))) /\
  StronglySorted descending (by_category df) /\
  (~ total_rev df == 0 ->
     map snd (category_lines df) =
       map (fun ca => Some (snd ca / total_rev df * 100)) (by_category df) /\
     Qsum (shares df) == 100) /\
  (total_rev df == 0 -> Forall (fun l => snd l = None) (category_lines df)).
Proof.
  assert (P : Permutation (groupby_sum e_category e_revenue (with_category df))
                          (by_category df))
    by apply sort_values_desc_perm.
  split; [|split; [|split; [|split; [|split; [|split]]]]].
  - unfold category_lines. rewrite map_map. simpl. apply map_pair_id.
  - apply (Permutation_NoDup (Permutation_map fst P)).
    rewrite groupby_sum_keys. apply groupby_keys_NoDup.
  - intros c. rewrite <- (groupby_keys e_category (with_category df) c),
      <- (groupby_sum_keys e_category e_revenue (with_category df)).
    split; apply Permutation_in; [symmetry|]; now apply Permutation_map.
  - intros c v I. now apply by_category_entries.
  - unfold by_category. apply sort_values_desc_sorted.
  - intros N.
    assert (B : Qeq_bool (total_rev df) 0 = false).
    { destruct (Qeq_bool (total_rev df) 0) eqn:E; [|reflexivity].
      apply Qeq_bool_iff in E. contradiction. }
    assert (M : map snd (category_lines df) =
                map (fun ca => Some (snd ca / total_rev df * 100)) (by_category df)).
    { unfold category_lines. rewrite map_map. apply map_ext. intros ca.
      simpl. now rewrite B. }
    split; [exact M|].
    assert (S : shares df = map (fun x => x / total_rev df * 100)
                              (map snd (by_category df))).
    { unfold shares, category_lines. rewrite map_map. apply shares_of_lines.
      intros ca. simpl. now rewrite B. }
    rewrite S, (Qsum_scaled _ N). fold (total_rev df). field. exact N.
  - intros Z. unfold category_lines. apply Forall_forall. intros l I.
    apply in_map_iff in I. destruct I as [ca [<- _]]. simpl.
    now rewrite (proj2 (Qeq_bool_iff _ _) Z).
Qed.

Lemma category_lines_shares_witness :
  ~ total_rev two_sales == 0 /\ Qsum (shares two_sales) == 100.
Proof.
  assert (N : ~ total_rev two_sales == 0) by (vm_compute; congruence).
  split; [exact N|].
  exact (proj2 (proj1 (proj2 (proj2 (proj2 (proj2 (proj2
           (category_lines_shares two_sales)))))) N)).
Defined.

Lemma sorted_split {K} (s : list (K * Q)) n x y :
  StronglySorted descending s ->
  In x (firstn n s) -> In y (skipn n s) -> snd y <= snd x.
Proof.
  revert s. induction n as [|n IH]; intros s S Ix Iy; [destruct Ix|].
  destruct S as [|e s S F]; [destruct Ix|]. simpl in Ix, Iy.
  destruct Ix as [<-|Ix]; [|now apply (IH s)].
  rewrite Forall_forall in F. apply F.
  rewrite <- (firstn_skipn n s). apply in_or_app. now right.
Qed.

(** X13: no product is listed twice among the top products, and a
    product of the table (a cell read as missing is none) that is not
    listed has no more revenue than any product that is. *)
Theorem top_products_lead `{SortValues} df :
  NoDup (map fst (top_products df)) /\
  (forall p v q, In (p, v) (top_products df) ->
     In q (map e_product df) -> is_missing q = false ->
     ~ In q (map fst (top_products df)) ->
     Qsum (map e_revenue (rows_of e_product q df)) <= v).
Proof.
  set (s := sort_values_desc (groupby_sum e_product e_revenue (with_product df))).
  assert (P : Permutation (groupby_sum e_product e_revenue (with_product df)) s)
    by apply sort_values_desc_perm.
  assert (N : NoDup (map fst s)).
  { apply (Permutation_NoDup (Permutation_map fst P)).
    rewrite groupby_sum_keys. apply groupby_keys_NoDup. }
  assert (S : StronglySorted descending s) by apply sort_values_desc_sorted.
  split.
  - unfold top_products. fold s. rewrite <- (firstn_skipn 5 s), map_app in N.
    now apply NoDup_app_remove_r in N.
  - intros p v q Ip Iq Mq Nq. unfold top_products in Ip, Nq. fold s in Ip, Nq.
    set (u := Qsum (map e_revenue (rows_of e_product q df))).
    assert (I : In (q, u) s).
    { apply (Permutation_in _ P). unfold groupby_sum, agg_sum.
      apply in_map_iff. exists (q, rows_of e_product q (with_product df)).
      split; [unfold u, with_product; now rewrite rows_of_present|].
      assert (J : In q (map e_product (with_product df)))
        by now apply (present_key e_product q df).
      apply in_map_iff in J. destruct J as [e [<- Ie]].
      now apply (groupby_present e_product). }
    rewrite <- (firstn_skipn 5 s) in I. apply in_app_or in I.
    destruct I as [I|I].
    + exfalso. apply Nq. change q with (fst (q, u)). now apply in_map.
    + exact (sorted_split 5 (p, v) (q, u) S Ip I).
Qed.

(** Six products; the sixth earns least. *)
Definition six_products : list EnrichedTransaction :=
  [ sample_row 1 0 9 "Coffee" "Latte" 6 1 None None;
    sample_row 2 0 9 "Coffee" "Mocha" 5 1 None None;
    sample_row 3 0 9 "Tea" "Chai" 4 1 None None;
    sample_row 4 0 9 "Tea" "Mint" 3 1 None None;
    sample_row 5 0 9 "Bakery" "Scone" 2 1 None None;
    sample_row 6 0 9 "Bakery" "Bun" 1 1 None None ].

Lemma top_products_lead_witness :
  In ("Scone"%string, 2) (top_products six_products) /\
  In "Bun"%string (map e_product six_products) /\
  is_missing "Bun" = false /\
  ~ In "Bun"%string (map fst (top_products six_products)) /\
  Qsum (map e_revenue (rows_of e_product "Bun"%string six_products)) <= 2.
Proof.
  assert (I : In ("Scone"%string, 2) (top_products six_products))
    by (vm_compute; tauto).
  assert (J : In "Bun"%string (map e_product six_products))
    by (vm_compute; tauto).
  assert (N : ~ In "Bun"%string (map fst (top_products six_products))).
  { vm_compute. intuition discriminate. }
  split; [exact I|]. split; [exact J|]. split; [reflexivity|].
  split; [exact N|].
  exact (proj2 (top_products_lead six_products) _ _ _ I J eq_refl N).
Defined.

(** ** Least, greatest and mean of a column *)

Lemma Qmax_list_spec xs m :
  Qmax_list xs = Some m -> In m xs /\ Forall (fun x => x <= m) xs.
Proof.
  revert m. induction xs as [|x xs IH]; simpl; intros m; [discriminate|].
  destruct (Qmax_list xs) as [m'|] eqn:E.
  - destruct (IH m' eq_refl) as [I F]. intros H. injection H as <-.
    destruct (Qle_bool m' x) eqn:B.
    + apply Qle_bool_iff in B. split; [now left|].
      constructor; [apply Qle_refl|]. eapply Forall_impl; [|exact F].
      intros y Hy. now apply Qle_trans with m'.
    + split; [now right|]. constructor; [|exact F].
      apply Qlt_le_weak, Qnot_le_lt. intros L. apply Qle_bool_iff in L. congruence.
  - intros H. injection H as <-. destruct xs; [|simpl in E; destruct (Qmax_list xs); discriminate].
    split; [now left|]. repeat constructor. apply Qle_refl.
Qed.

Lemma Qmin_list_spec xs m :
  Qmin_list xs = Some m -> In m xs /\ Forall (fun x => m <= x) xs.
Proof.
  revert m. induction xs as [|x xs IH]; simpl; intros m; [discriminate|].
  destruct (Qmin_list xs) as [m'|] eqn:E.
  - destruct (IH m' eq_refl) as [I F]. intros H. injection H as <-.
    destruct (Qle_bool x m') eqn:B.
    + apply Qle_bool_iff in B. split; [now left|].
      constructor; [apply Qle_refl|]. eapply Forall_impl; [|exact F].
      intros y Hy. now apply Qle_trans with m'.
    + split; [now right|]. constructor; [|exact F].
      apply Qlt_le_weak, Qnot_le_lt. intros L. apply Qle_bool_iff in L. congruence.
  - intros H. injection H as <-. destruct xs; [|simpl in E; destruct (Qmin_list xs); discriminate].
    split; [now left|]. repeat constructor. apply Qle_refl.
Qed.

Lemma Qmax_list_some x xs : exists m, Qmax_list (x :: xs) = Some m.
Proof. simpl. destruct (Qmax_list xs); eauto. Qed.

Lemma Qmin_list_some x xs : exists m, Qmin_list (x :: xs) = Some m.
Proof. simpl. destruct (Qmin_list xs); eauto. Qed.

Lemma Qsum_between (lo hi : Q) xs :
  Forall (fun x => lo <= x <= hi) xs ->
  count_of xs * lo <= Qsum xs <= count_of xs * hi.
Proof.
  unfold count_of. induction 1 as [|x xs B F IH].
  - simpl. split; apply Qle_lteq; right; ring.
  - cbn [Qsum fold_right length]. fold (Qsum xs).
    rewrite Nat2Z.inj_succ, <- Z.add_1_r, inject_Z_plus.
    destruct IH as [L U]. destruct B as [Bl Bu]. split.
    + setoid_replace ((inject_Z (Z.of_nat (length xs)) + inject_Z 1) * lo)
        with (lo + inject_Z (Z.of_nat (length xs)) * lo) by ring.
      now apply Qplus_le_compat.
    + setoid_replace ((inject_Z (Z.of_nat (length xs)) + inject_Z 1) * hi)
        with (hi + inject_Z (Z.of_nat (length xs)) * hi) by ring.
      now apply Qplus_le_compat.
Qed.

Lemma Qmean_spec xs m :
  Qmean xs = Some m -> xs <> [] /\ m * count_of xs == Qsum xs.
Proof.
  destruct xs as [|x xs]; [discriminate|]. intros H.
  assert (E : m = Qsum (x :: xs) / count_of (x :: xs))
    by (unfold Qmean, count_of in *; congruence).
  split; [discriminate|]. pose proof (count_of_pos x xs) as P.
  set (c := count_of (x :: xs)) in *. set (t := Qsum (x :: xs)) in *.
  rewrite E. field. intros Z. rewrite Z in P. now apply Qlt_irrefl in P.
Qed.

(** The mean of a column lies between its least and its greatest cell. *)
Lemma mean_between xs lo hi m :
  Qmin_list xs = Some lo -> Qmax_list xs = Some hi -> Qmean xs = Some m ->
  lo <= m <= hi.
Proof.
  intros Emin Emax Emean.
  destruct (Qmin_list_spec _ Emin) as [_ Fl].
  destruct (Qmax_list_spec _ Emax) as [_ Fh].
  destruct (Qmean_spec _ Emean) as [N M].
  assert (B : Forall (fun x => lo <= x <= hi) xs).
  { rewrite Forall_forall in *. intros x I. split; auto. }
  apply Qsum_between in B. rewrite <- M in B. destruct B as [L U].
  destruct xs as [|x xs]; [congruence|]. pose proof (count_of_pos x xs) as P.
  split.
  - apply Qmult_le_l with (count_of (x :: xs)); [exact P|].
    now rewrite (Qmult_comm _ m).
  - apply Qmult_le_l with (count_of (x :: xs)); [exact P|].
    now rewrite (Qmult_comm _ m).
Qed.

(** ** The basic numbers (lines 38-46) *)

Lemma fold_min_spec xs : forall x,
  (fold_left Z.min xs x <= x)%Z /\
  Forall (fun y => (fold_left Z.min xs x <= y)%Z) xs /\
  In (fold_left Z.min xs x) (x :: xs).
Proof.
  induction xs as [|y xs IH]; intros x; simpl.
  - split; [lia|split; [constructor|now left]].
  - destruct (IH (Z.min x y)) as (L & F & I). split; [lia|]. split.
    + constructor; [lia|exact F].
    + destruct I as [E|I]; [|now right; right].
      rewrite <- E. destruct (Z.min_spec x y) as [[_ ->]|[_ ->]]; auto.
Qed.

Lemma fold_max_spec xs : forall x,
  (x <= fold_left Z.max xs x)%Z /\
  Forall (fun y => (y <= fold_left Z.max xs x)%Z) xs /\
  In (fold_left Z.max xs x) (x :: xs).
Proof.
  induction xs as [|y xs IH]; intros x; simpl.
  - split; [lia|split; [constructor|now left]].
  - destruct (IH (Z.max x y)) as (L & F & I). split; [lia|]. split.
    + constructor; [lia|exact F].
    + destruct I as [E|I]; [|now right; right].
      rewrite <- E. destruct (Z.max_spec x y) as [[_ ->]|[_ ->]]; auto.
Qed.

Lemma per_day_daily df :
  map snd (groupby_sum e_date e_revenue df) = map ds_revenue (daily df).
Proof. unfold groupby_sum, agg_sum, daily. now rewrite !map_map. Qed.

(** X14: for a table with rows, the basic numbers agree with each
    other: the average per transaction times the number of rows, and
    the average daily revenue times the number of days, are the total
    revenue; the slowest and the busiest day are revenues of days of
    the table with the average between them; the date range is made of
    two dates of the table that enclose all others. *)
Theorem basic_numbers_agree df :
  df <> [] ->
  exists a lo avg hi d0 d1,
    average_per_transaction (basics df) = Some a /\
    slowest_day (basics df) = Some lo /\
    average_daily_revenue (basics df) = Some avg /\
    busiest_day (basics df) = Some hi /\
    date_range (basics df) = (Some d0, Some d1) /\
    total_transactions (basics df) = length df /\
    a * count_of df == total_revenue df /\
    avg * count_of (daily df) == total_revenue df /\
    lo <= avg <= hi /\
    In lo (map ds_revenue (daily df)) /\ In hi (map ds_revenue (daily df)) /\
    In d0 (map e_date df) /\ In d1 (map e_date df) /\
    (forall e, In e df -> (d0 <= e_date e <= d1)%Z).
Proof.
  intros N. unfold basics. simpl. rewrite per_day_daily.
  assert (D : daily df <> []) by (intros Z; apply daily_nil in Z; contradiction).
  destruct df as [|e df]; [congruence|].
  remember (daily (e :: df)) as days eqn:Ed.
  destruct days as [|s days]; [congruence|].
  destruct (Qmin_list_some (ds_revenue s) (map ds_revenue days)) as [lo Elo].
  destruct (Qmax_list_some (ds_revenue s) (map ds_revenue days)) as [hi Ehi].
  change (ds_revenue s :: map ds_revenue days) with (map ds_revenue (s :: days)) in *.
  destruct (Qmean (map e_revenue (e :: df))) as [a|] eqn:Ea; [|discriminate].
  destruct (Qmean (map ds_revenue (s :: days))) as [avg|] eqn:Eavg; [|discriminate].
  exists a, lo, avg, hi, (fold_left Z.min (map e_date df) (e_date e)),
         (fold_left Z.max (map e_date df) (e_date e)).
  destruct (Qmean_spec _ Ea) as [_ Ma]. destruct (Qmean_spec _ Eavg) as [_ Mavg].
  destruct (Qmin_list_spec _ Elo) as [Ilo _].
  destruct (Qmax_list_spec _ Ehi) as [Ihi _].
  destruct (fold_min_spec (map e_date df) (e_date e)) as (L0 & F0 & I0).
  destruct (fold_max_spec (map e_date df) (e_date e)) as (L1 & F1 & I1).
  rewrite Elo, Ehi.
  repeat (split; [first [reflexivity|assumption]|]).
  split.
  - unfold total_revenue. rewrite <- Ma. unfold count_of.
    rewrite length_map. reflexivity.
  - split.
    + assert (T : Qsum (map ds_revenue (s :: days)) == total_revenue (e :: df)).
      { rewrite Ed, <- (per_day_daily (e :: df)).
        exact (groupby_sum_total e_date e_revenue (e :: df)). }
      rewrite <- T, <- Mavg. unfold count_of. rewrite length_map. reflexivity.
    + split; [exact (mean_between _ Elo Ehi Eavg)|].
      repeat (split; [assumption|]).
      intros x [<-|Ix]; [lia|]. rewrite Forall_forall in F0, F1.
      split; [apply F0|apply F1]; now apply in_map.
Qed.

Lemma basic_numbers_agree_witness :
  two_sales <> [] /\
  exists a lo avg hi d0 d1,
    average_per_transaction (basics two_sales) = Some a /\
    slowest_day (basics two_sales) = Some lo /\
    average_daily_revenue (basics two_sales) = Some avg /\
    busiest_day (basics two_sales) = Some hi /\
    date_range (basics two_sales) = (Some d0, Some d1) /\
    total_transactions (basics two_sales) = length two_sales /\
    a * count_of two_sales == total_revenue two_sales /\
    avg * count_of (daily two_sales) == total_revenue two_sales /\
    lo <= avg <= hi /\
    In lo (map ds_revenue (daily two_sales)) /\
    In hi (map ds_revenue (daily two_sales)) /\
    In d0 (map e_date two_sales) /\ In d1 (map e_date two_sales) /\
    (forall e, In e two_sales -> (d0 <= e_date e <= d1)%Z).
Proof.
  assert (N : two_sales <> []) by discriminate.
  split; [exact N|]. exact (basic_numbers_agree N).
Defined.

(** ** The weather figures (lines 113-116) *)

Lemma present_In col days v :
  In v (present col days) <-> exists d, In d days /\ col d = Some v.
Proof.
  unfold present. rewrite in_flat_map. split.
  - intros (d & I & J). exists d. split; [exact I|].
    destruct (col d); [|destruct J]. destruct J as [<-|[]]. reflexivity.
  - intros (d & I & E). exists d. split; [exact I|]. rewrite E. now left.
Qed.

Lemma present_nil col days :
  present col days = [] <-> Forall (fun d => col d = None) days.
Proof.
  split; [|apply present_none]. intros E. apply Forall_forall. intros d I.
  destruct (col d) as [v|] eqn:C; [|reflexivity].
  assert (J : In v (present col days)) by (apply present_In; eauto).
  now rewrite E in J.
Qed.

(** X15: the temperature range encloses the temperature of every day
    that has one, and the average temperature; the rainiest day is at
    least the rain of every day; there is a day with rain exactly when
    the rainiest day has rain, and the days with rain are no more than
    the days; range, average and rainiest day are NaN only when no day
    has the value. *)
Theorem weather_figures days :
  (forall lo hi, temperature_range (weather_block days) = (Some lo, Some hi) ->
     (forall d t, In d days -> ds_temperature d = Some t -> lo <= t <= hi) /\
     (forall avg, average_temperature (weather_block days) = Some avg ->
        lo <= avg <= hi)) /\
  (forall m, rainiest_line (weather_block days) = Some m ->
     forall d r, In d days -> ds_rain d = Some r -> r <= m) /\
  ((0 < fst (days_with_rain_line (weather_block days)))%nat <->
     exists m, rainiest_line (weather_block days) = Some m /\ 0 < m) /\
  (fst (days_with_rain_line (weather_block days)) <= length days)%nat /\
  (average_temperature (weather_block days) = None <->
     Forall (fun d => ds_temperature d = None) days) /\
  (rainiest_line (weather_block days) = None <->
     Forall (fun d => ds_rain d = None) days).
Proof.
  unfold weather_block. simpl. unfold rainiest_day, days_with_rain.
  split; [|split; [|split; [|split; [|split]]]].
  - intros lo hi E. injection E as Elo Ehi. split.
    + intros d t I T.
      assert (J : In t (present ds_temperature days)) by (apply present_In; eauto).
      destruct (Qmin_list_spec _ Elo) as [_ Fl].
      destruct (Qmax_list_spec _ Ehi) as [_ Fh].
      rewrite Forall_forall in Fl, Fh. split; auto.
    + intros avg Ea. exact (mean_between _ Elo Ehi Ea).
  - intros m E d r I R.
    assert (J : In r (present ds_rain days)) by (apply present_In; eauto).
    destruct (Qmax_list_spec _ E) as [_ F]. rewrite Forall_forall in F. auto.
  - split.
    + intros L.
      destruct (filter (fun d => cell_gt (ds_rain d) 0) days) as [|d l] eqn:E;
        [simpl in L; lia|].
      assert (I : In d (filter (fun d => cell_gt (ds_rain d) 0) days))
        by (rewrite E; now left).
      apply filter_In in I. destruct I as [I G].
      apply cell_gt_spec in G. destruct G as (v & Ev & Pv).
      assert (J : In v (present ds_rain days)) by (apply present_In; eauto).
      destruct (present ds_rain days) as [|x xs] eqn:P; [destruct J|].
      destruct (Qmax_list_some x xs) as [m Em]. exists m. split; [exact Em|].
      destruct (Qmax_list_spec _ Em) as [_ F]. rewrite Forall_forall in F.
      apply Qlt_le_trans with v; auto.
    + intros (m & Em & Pm). destruct (Qmax_list_spec _ Em) as [Im _].
      apply present_In in Im. destruct Im as (d & I & R).
      assert (J : In d (filter (fun d => cell_gt (ds_rain d) 0) days)).
      { apply filter_In. split; [exact I|]. apply cell_gt_spec. eauto. }
      destruct (filter (fun d => cell_gt (ds_rain d) 0) days); [destruct J|].
      simpl. lia.
  - apply filter_length_le.
  - rewrite <- present_nil. destruct (present ds_temperature days); simpl;
      split; congruence.
  - rewrite <- present_nil. destruct (present ds_rain days) as [|x xs] eqn:P.
    + split; reflexivity.
    + destruct (Qmax_list_some x xs) as [m Em]. rewrite Em. split; congruence.
Qed.

Lemma weather_figures_witness :
  temperature_range (weather_block gap_days) = (Some 50, Some 60) /\
  forall d t, In d gap_days -> ds_temperature d = Some t -> 50 <= t <= 60.
Proof.
  assert (E : temperature_range (weather_block gap_days) = (Some 50, Some 60))
    by reflexivity.
  split; [exact E|].
  exact (proj1 (proj1 (weather_figures gap_days) _ _ E)).
Defined.

(** ** The means of the reports (lines 90-94, 103-107) *)

Lemma mean_revenue_where_spec mask days :
  (mean_revenue_where mask days = None <->
     forall d, In d days -> mask d = false) /\
  (forall m, mean_revenue_where mask days = Some m ->
     m * count_of (filter mask days) == Qsum (map ds_revenue (filter mask days))).
Proof.
  unfold mean_revenue_where. split.
  - split.
    + intros E d I. destruct (mask d) eqn:M; [|reflexivity].
      assert (J : In d (filter mask days)) by (apply filter_In; auto).
      destruct (filter mask days); [destruct J|discriminate].
    + intros H. now rewrite filter_none.
  - intros m E. destruct (Qmean_spec _ E) as [_ M]. rewrite <- M.
    unfold count_of. now rewrite length_map.
Qed.

(** X16: in the strong report the cold mean is NaN exactly when no day
    is below 40°F, and the warm mean when none is above 70°F; a NaN
    mean makes the difference and the uplift NaN, a cold mean of zero
    makes the uplift not finite; with a positive cold mean the uplift
    is the difference as a percentage of the cold mean, and has its
    sign. *)
Theorem strong_report_figures days :
  (temp_cold days = None <->
     forall d, In d days -> cell_lt (ds_temperature d) 40 = false) /\
  (temp_warm days = None <->
     forall d, In d days -> cell_gt (ds_temperature d) 70 = false) /\
  (temp_cold days = None \/ temp_warm days = None ->
     cell_sub (temp_warm days) (temp_cold days) = None /\
     uplift (temp_warm days) (temp_cold days) = None) /\
  (forall c, temp_cold days = Some c -> c == 0 ->
     uplift (temp_warm days) (temp_cold days) = None) /\
  (forall c w, temp_cold days = Some c -> temp_warm days = Some w -> 0 < c ->
     exists u, uplift (temp_warm days) (temp_cold days) = Some u /\
       u == (w - c) / c * 100 /\ (0 < u <-> 0 < w - c)).
Proof.
  split; [apply mean_revenue_where_spec|]. split; [apply mean_revenue_where_spec|].
  split; [|split].
  - unfold uplift. intros [-> | ->]; destruct (temp_warm days), (temp_cold days);
      simpl; auto; destruct (Qeq_bool _ _); auto.
  - intros c -> Z. unfold uplift. destruct (temp_warm days); simpl; [|reflexivity].
    now rewrite (proj2 (Qeq_bool_iff _ _) Z).
  - intros c w -> -> P. unfold uplift. simpl.
    assert (N : ~ c == 0) by (intros Z; rewrite Z in P; now apply Qlt_irrefl in P).
    destruct (Qeq_bool c 0) eqn:B; [apply Qeq_bool_iff in B; contradiction|].
    eexists. split; [reflexivity|].
    assert (E : (w / c - 1) * 100 == (w - c) / c * 100) by (field; exact N).
    split; [exact E|]. rewrite E.
    assert (I : 0 < / c) by now apply Qinv_lt_0_compat.
    unfold Qdiv. split; intros H.
    + destruct (Qlt_le_dec 0 (w - c)) as [L|G]; [exact L|]. exfalso.
      assert (X : (w - c) * / c * 100 <= 0) by nra.
      apply (Qlt_irrefl 0). now apply Qlt_le_trans with ((w - c) * / c * 100).
    + assert (0 < (w - c) * / c) by now apply Qmult_lt_0_compat.
      nra.
Qed.

Lemma strong_report_figures_witness :
  temp_cold cold_snap_days = Some (52 / 1) /\
  temp_warm cold_snap_days = Some (48 / 1) /\
  exists u, uplift (temp_warm cold_snap_days) (temp_cold cold_snap_days) = Some u /\
    u == (48 / 1 - 52 / 1) / (52 / 1) * 100 /\ (0 < u <-> 0 < 48 / 1 - 52 / 1).
Proof.
  assert (C : temp_cold cold_snap_days = Some (52 / 1)) by reflexivity.
  assert (W : temp_warm cold_snap_days = Some (48 / 1)) by reflexivity.
  split; [exact C|]. split; [exact W|].
  apply (proj2 (proj2 (proj2 (proj2 (strong_report_figures cold_snap_days)))) _ _ C W).
  reflexivity.
Defined.

(** X17: in the weak rain report the mean of the rainy days is NaN
    exactly when no day has rain above zero, and the mean of the clear
    days when no day has rain equal to zero; a NaN mean makes the
    difference NaN; otherwise the difference is not negative, is the
    same with the two means exchanged, and is zero only when the means
    are equal. *)
Theorem weak_report_figures days :
  (rainy days = None <-> forall d, In d days -> cell_gt (ds_rain d) 0 = false) /\
  (no_rain days = None <-> forall d, In d days -> cell_eq (ds_rain d) 0 = false) /\
  (rainy days = None \/ no_rain days = None ->
     cell_abs (cell_sub (no_rain days) (rainy days)) = None) /\
  (forall w n, rainy days = Some w -> no_rain days = Some n ->
     exists g, cell_abs (cell_sub (no_rain days) (rainy days)) = Some g /\
       0 <= g /\ g == Qabs (w - n) /\ (g == 0 <-> w == n)).
Proof.
  split; [apply mean_revenue_where_spec|]. split; [apply mean_revenue_where_spec|].
  split.
  - intros [-> | ->]; destruct (no_rain days), (rainy days); reflexivity.
  - intros w n -> ->. unfold cell_abs, cell_sub, option_map.
    eexists. split; [reflexivity|].
    split; [apply Qabs_nonneg|]. split.
    + rewrite <- (Qabs_opp (w - n)). apply Qabs_wd. ring.
    + split.
      * intros Z. pose proof (Qabs_nonneg (n - w)).
        pose proof (Qle_Qabs (n - w)). pose proof (Qle_Qabs (- (n - w))).
        rewrite Qabs_opp in *. rewrite Z in *. lra.
      * intros E. rewrite E. setoid_replace (n - n) with 0 by ring. reflexivity.
Qed.

Lemma weak_report_figures_witness :
  rainy gap_days = Some (200 / 1) /\ no_rain gap_days = Some (100 / 1) /\
  exists g, cell_abs (cell_sub (no_rain gap_days) (rainy gap_days)) = Some g /\
    0 <= g /\ g == Qabs (200 / 1 - 100 / 1) /\ (g == 0 <-> 200 / 1 == 100 / 1).
Proof.
  assert (R : rainy gap_days = Some (200 / 1)) by reflexivity.
  assert (N : no_rain gap_days = Some (100 / 1)) by reflexivity.
  split; [exact R|]. split; [exact N|].
  exact (proj2 (proj2 (proj2 (weak_report_figures gap_days))) _ _ R N).
Defined.

(** ** The category chart (lines 128-129) *)

(** The bars of the second chart, bottom to top: the category sums
    again, this time through [sort_values()], smallest value first. *)
Definition chart_categories `{SortValues} (df : list EnrichedTransaction)
  : list (string * Q) :=
  sort_values_asc (groupby_sum e_category e_revenue (with_category df)).

(** X19: the bars of the category chart are the categories and amounts
    of the printed category lines, each once, smallest amount first,
    and their amounts add up to the revenue of the rows that have a
    category. *)
Theorem chart_categories_bars `{SortValues} df :
  Permutation (chart_categories df) (by_category df) /\
  StronglySorted ascending (chart_categories df) /\
  Qsum (map snd (chart_categories df)) == total_revenue (with_category df).
Proof.
  assert (P : Permutation (groupby_sum e_category e_revenue (with_category df))
                          (chart_categories df))
    by apply sort_values_asc_perm.
  split; [|split].
  - rewrite <- P. apply sort_values_desc_perm.
  - apply sort_values_asc_sorted.
  - rewrite <- (Qsum_perm (Permutation_map snd P)). apply groupby_sum_total.
Qed.

Example chart_two_sales :
  map fst (chart_categories two_sales) = ["Tea"; "Coffee"]%string /\
  map fst (by_category two_sales) = ["Coffee"; "Tea"]%string.
Proof. split; reflexivity. Qed.
